(** * colorsplit: the page classifier and the splitting pipeline

    A shallow embedding of the script of the application's page:
    [detectColor], which decides from an RGBA raster whether a page is a
    colour page, and [processPDFs], which routes every page of every input
    file to the colour document or to the black-and-white document.

    JavaScript numbers are IEEE 754 binary64 values; they are modelled by
    Rocq's primitive floats, whose operations are the same binary64
    operations with round-to-nearest-even. The PDF libraries, the canvas
    and the browser are collaborators: what they answer is an input of
    the model. *)

From Stdlib Require Import String.
From Stdlib Require Import ZArith NArith List Bool Lia.
From Stdlib Require Import Sorted.
From Stdlib Require Import Reals Lra Psatz.
From Stdlib Require Import Floats.
From Stdlib.Strings Require Import Byte.
Import ListNotations.

Set Warnings "-inexact-float".

(* ================================================================== *)
(** ** JavaScript numbers *)

Module JS.

Definition number := float.

(** [undefined] coerced to a number is NaN; every arithmetic operation
    and every comparison the script applies to a value read out of range
    sees it through this coercion. *)
Definition undefined : number := nan.

Definition lt (x y : number) : bool := PrimFloat.ltb x y.
Definition gt (x y : number) : bool := PrimFloat.ltb y x.
(** [===] on two numbers. *)
Definition strict_eq (x y : number) : bool := PrimFloat.eqb x y.

(** [Math.max] and [Math.min] of two numbers: NaN when an argument is
    NaN, and [+0] counts as larger than [-0]. *)
Definition max2 (x y : number) : number :=
  if is_nan x || is_nan y then nan
  else if PrimFloat.ltb x y then y
  else if PrimFloat.ltb y x then x
  else if get_sign x then y else x.

Definition min2 (x y : number) : number :=
  if is_nan x || is_nan y then nan
  else if PrimFloat.ltb x y then x
  else if PrimFloat.ltb y x then y
  else if get_sign x then x else y.

Definition max3 (x y z : number) : number := max2 (max2 x y) z.
Definition min3 (x y z : number) : number := min2 (min2 x y) z.

(** An element of a [Uint8ClampedArray], as a number. *)
Definition of_byte (b : byte) : number :=
  of_uint63 (Uint63.of_Z (Z.of_N (Byte.to_N b))).

End JS.

(* ================================================================== *)
(** ** detectColor *)

(** The [ImageData] of a canvas: [data] is the [Uint8ClampedArray] of the
    RGBA samples, four bytes a pixel, row after row. *)
Record ImageData := mkImageData {
  width : nat;
  height : nat;
  data : list byte
}.

(** [data[i]]: the byte as a number, [undefined] out of range. *)
Definition data_at (d : list byte) (i : nat) : JS.number :=
  match nth_error d i with
  | Some b => JS.of_byte b
  | None => JS.undefined
  end.

(** The four counters of [detectColor]; like every JavaScript number they
    are binary64 values, and [++] is the addition of [1]. *)
Record Tally := mkTally {
  colorPixels : JS.number;
  sampledPixels : JS.number;
  brightPixels : JS.number;
  darkPixels : JS.number
}.

Definition tally0 : Tally := mkTally 0%float 0%float 0%float 0%float.

Section Pixel.
Local Open Scope float_scope.

Definition luminance (r g b : JS.number) : JS.number :=
  0.299 * r + 0.587 * g + 0.114 * b.

Definition saturation (r g b : JS.number) : JS.number :=
  let max := JS.max3 r g b in
  let min := JS.min3 r g b in
  if JS.strict_eq max 0 then 0 else (max - min) / max.

Definition chroma (r g b : JS.number) : JS.number :=
  JS.max3 r g b - JS.min3 r g b.

(** The value of [isColorPixel] at the end of the loop body. *)
Definition isColorPixel (threshold r g b : JS.number) : bool :=
  let luminance := luminance r g b in
  let saturation := saturation r g b in
  let chroma := chroma r g b in
  if JS.lt luminance 55 then
    JS.gt (saturation * 100) (threshold * 0.7) || JS.gt chroma 8
  else if JS.gt luminance 200 then
    JS.gt (saturation * 100) (threshold * 0.8) || JS.gt chroma 10
  else
    JS.gt (saturation * 100) threshold
    || (JS.gt chroma 12 && JS.gt saturation 0.1).

(** One turn of the loop, at index [i]. *)
Definition sample (threshold : JS.number) (d : list byte)
           (t : Tally) (i : nat) : Tally :=
  let r := data_at d i in
  let g := data_at d (i + 1) in
  let b := data_at d (i + 2) in
  let a := data_at d (i + 3) in
  if JS.lt a 128 then t
  else
    let lum := luminance r g b in
    mkTally
      (if isColorPixel threshold r g b
       then colorPixels t + 1 else colorPixels t)
      (sampledPixels t + 1)
      (if JS.gt lum 200 then brightPixels t + 1 else brightPixels t)
      (if JS.gt lum 200 then darkPixels t
       else if JS.lt lum 55 then darkPixels t + 1 else darkPixels t).

(** The indices the loop visits: [0, 40, 80, ...] below [len]. *)
Definition sample_indices (len : nat) : list nat :=
  map (fun k => 40 * k)%nat (seq 0 ((len + 39) / 40)).

Definition tally_of (threshold : JS.number) (d : list byte) : Tally :=
  fold_left (sample threshold d) (sample_indices (length d)) tally0.

(** The decision taken after the loop. *)
Definition verdict (t : Tally) : bool :=
  if JS.strict_eq (sampledPixels t) 0 then false
  else
    let colorPercentage := colorPixels t / sampledPixels t * 100 in
    let brightRatio := brightPixels t / sampledPixels t in
    let darkRatio := darkPixels t / sampledPixels t in
    let finalThreshold :=
      if JS.gt brightRatio 0.3 || JS.gt darkRatio 0.3 then 0.005 else 0.01 in
    JS.gt colorPercentage finalThreshold.

Definition detectColor (imageData : ImageData) (threshold : JS.number)
  : bool :=
  verdict (tally_of threshold (data imageData)).

End Pixel.

(** The classification of the specification. *)
Inductive PageClassification := Color | BlackAndWhite.

Definition classify (buffer : ImageData) (threshold : JS.number)
  : PageClassification :=
  if detectColor buffer threshold then Color else BlackAndWhite.

(** Buffers for examples: [n] copies of one RGBA pixel. *)
Definition uniform (n : nat) (r g b a : byte) : ImageData :=
  mkImageData n 1 (concat (repeat [r; g; b; a] n)).

Definition red_page : ImageData := uniform 25 xff x00 x00 xff.
Definition white_page : ImageData := uniform 25 xff xff xff xff.
Definition clear_page : ImageData := uniform 25 x00 x00 x00 x00.


(* ================================================================== *)
(** ** processPDFs *)

(** What the collaborators answer for one page: [render] is the raster
    read back from the canvas, or [None] when [getPage], [render] or
    [getImageData] throws; [copyable] says whether [copyPages] followed by
    [addPage] goes through. *)
Record PageEnv := mkPage {
  render : option ImageData;
  copyable : bool
}.

(** What they answer for one file. *)
Inductive FileBody :=
| Unreadable                       (* [file.arrayBuffer()] rejects *)
| InvalidPDF                       (* [PDFDocument.load] rejects *)
| NotRenderable (pageCount : nat)  (* [pdfjsLib.getDocument] rejects *)
| Opened (pages : list PageEnv).

Record File := mkFile {
  name : string;
  body : FileBody
}.

(** The texts [progress] takes (the messages of [m]). *)
Inductive Message :=
| no_message
| progress_starting
| progress_processing_file (filename : string) (current total : nat)
| error_reading_file (filename : string)
| error_invalid_pdf (filename : string)
| error_processing_file (filename : string)
| progress_processing_page (filename : string) (current total : nat)
| error_copying_page (page : nat) (filename : string)
| progress_generating
| error_generating_pdfs
| error_downloading_color
| error_downloading_bw
| error_no_pages
| progress_complete
| error_unexpected.

(** The lines written with [console.error]. *)
Inductive ConsoleError :=
| ErrReadingFile (filename : string)
| ErrLoadingPDF (filename : string)
| ErrLoadingPdfjs (filename : string)
| ErrProcessingPage (page : nat) (filename : string)
| ErrCopyingPage (page : nat) (filename : string)
| ErrGeneratingPDFs
| ErrDownloadingColor
| ErrDownloadingBW
| ErrUnexpected.

(** A page of an output document: the blank page of [addPage()], or the
    copy of page [pageIndex] of the document loaded from the file at
    [fileIndex]. *)
Inductive Page :=
| Blank
| Copied (fileIndex pageIndex : nat).

Definition PDFDocument := list Page.

Record Results := mkResults {
  colorPages : nat;
  bwPages : nat
}.

(** The state the two loops work on. *)
Record Run := mkRun {
  colorPDF : PDFDocument;
  bwPDF : PDFDocument;
  results : Results;
  progress : Message;
  console : list ConsoleError
}.

Definition set_progress (m : Message) (st : Run) : Run :=
  mkRun (colorPDF st) (bwPDF st) (results st) m (console st).

Definition console_error (e : ConsoleError) (st : Run) : Run :=
  mkRun (colorPDF st) (bwPDF st) (results st) (progress st)
        (console st ++ [e]).

Definition add_color (p : Page) (st : Run) : Run :=
  mkRun (colorPDF st ++ [p]) (bwPDF st) (results st) (progress st)
        (console st).

Definition add_bw (p : Page) (st : Run) : Run :=
  mkRun (colorPDF st) (bwPDF st ++ [p]) (results st) (progress st)
        (console st).

Definition count_color (st : Run) : Run :=
  mkRun (colorPDF st) (bwPDF st)
        (mkResults (S (colorPages (results st))) (bwPages (results st)))
        (progress st) (console st).

Definition count_bw (st : Run) : Run :=
  mkRun (colorPDF st) (bwPDF st)
        (mkResults (colorPages (results st)) (S (bwPages (results st))))
        (progress st) (console st).

Section Pipeline.

Variable colorThreshold : JS.number.
Variable insertBlankPages : bool.

(** The body of the page loop. *)
Definition processPage (fileIndex : nat) (filename : string)
           (pageCount pageIndex : nat) (pg : PageEnv) (st : Run) : Run :=
  let st := set_progress
              (progress_processing_page filename (pageIndex + 1) pageCount)
              st in
  let '(isColorPage, st) :=
    match render pg with
    | Some imageData => (detectColor imageData colorThreshold, st)
    | None =>
        (false, console_error (ErrProcessingPage (pageIndex + 1) filename) st)
    end in
  if copyable pg then
    if isColorPage
    then count_color (add_color (Copied fileIndex pageIndex) st)
    else count_bw (add_bw (Copied fileIndex pageIndex) st)
  else
    set_progress (error_copying_page (pageIndex + 1) filename)
      (console_error (ErrCopyingPage (pageIndex + 1) filename) st).

(** The page loop, from [pageIndex] on. *)
Fixpoint processPages (fileIndex : nat) (filename : string)
         (pageCount pageIndex : nat) (pages : list PageEnv) (st : Run)
  : Run :=
  match pages with
  | [] => st
  | pg :: rest =>
      processPages fileIndex filename pageCount (S pageIndex) rest
        (processPage fileIndex filename pageCount pageIndex pg st)
  end.

(** The body of the file loop. *)
Definition processFile (total fileIndex : nat) (file : File) (st : Run)
  : Run :=
  let st := set_progress
              (progress_processing_file (name file) (fileIndex + 1) total)
              st in
  match body file with
  | Unreadable =>
      set_progress (error_reading_file (name file))
        (console_error (ErrReadingFile (name file)) st)
  | InvalidPDF =>
      set_progress (error_invalid_pdf (name file))
        (console_error (ErrLoadingPDF (name file)) st)
  | NotRenderable _ =>
      set_progress (error_processing_file (name file))
        (console_error (ErrLoadingPdfjs (name file)) st)
  | Opened pages =>
      let st := if insertBlankPages && (0 <? fileIndex)%nat
                then add_bw Blank (add_color Blank st)
                else st in
      processPages fileIndex (name file) (length pages) 0 pages st
  end.

(** The file loop, from [fileIndex] on. *)
Fixpoint processFiles (total fileIndex : nat) (files : list File)
         (st : Run) : Run :=
  match files with
  | [] => st
  | file :: rest =>
      processFiles total (S fileIndex) rest
        (processFile total fileIndex file st)
  end.

End Pipeline.

(** What the collaborators answer once the loops are over: whether
    [save] goes through for each document, and whether the download of
    each saved document does. *)
Record OutputEnv := mkOutputEnv {
  colorSaveOk : bool;
  bwSaveOk : bool;
  colorDownloadOk : bool;
  bwDownloadOk : bool
}.

(** A file handed to the browser. *)
Record Download := mkDownload {
  download_name : string;
  download_bytes : PDFDocument
}.

(** What a run leaves behind: the state of the loops, the two byte arrays
    [save] produced ([None] is the [null] they start with) and the
    downloads triggered. *)
Record Outcome := mkOutcome {
  final : Run;
  colorPdfBytes : option PDFDocument;
  bwPdfBytes : option PDFDocument;
  downloads : list Download
}.

(** The [try] block that saves the two documents: the two byte arrays as
    they stand when the block is left, and whether a [save] threw. *)
Definition savePDFs (io : OutputEnv) (st : Run)
  : option PDFDocument * option PDFDocument * bool :=
  let wantColor := (0 <? colorPages (results st))%nat in
  let wantBw := (0 <? bwPages (results st))%nat in
  if wantColor && negb (colorSaveOk io) then (None, None, true)
  else
    let colorBytes := if wantColor then Some (colorPDF st) else None in
    if wantBw && negb (bwSaveOk io) then (colorBytes, None, true)
    else (colorBytes, if wantBw then Some (bwPDF st) else None, false).

(** The part of [processPDFs] after the file loop. Every call of this
    part that can fail sits in an inner [try] block; the outer [catch] is
    entered from the file loop only, see [fullRun]. *)
Definition generate (io : OutputEnv) (st : Run) : Outcome :=
  let st := set_progress progress_generating st in
  match savePDFs io st with
  | (colorBytes, bwBytes, true) =>
      mkOutcome
        (set_progress error_generating_pdfs
           (console_error ErrGeneratingPDFs st))
        colorBytes bwBytes []
  | (colorBytes, bwBytes, false) =>
      let '(st, dl) :=
        match colorBytes with
        | Some bytes =>
            if (0 <? colorPages (results st))%nat then
              if colorDownloadOk io
              then (st, [mkDownload "color_pages.pdf"%string bytes])
              else (set_progress error_downloading_color
                      (console_error ErrDownloadingColor st), [])
            else (st, [])
        | None => (st, [])
        end in
      let '(st, dl) :=
        match bwBytes with
        | Some bytes =>
            if (0 <? bwPages (results st))%nat then
              if bwDownloadOk io
              then (st, (dl ++ [mkDownload "bw_pages.pdf"%string bytes])%list)
              else (set_progress error_downloading_bw
                      (console_error ErrDownloadingBW st), dl)
            else (st, dl)
        | None => (st, dl)
        end in
      let st :=
        if ((colorPages (results st) =? 0) && (bwPages (results st) =? 0))%nat
        then set_progress error_no_pages st
        else set_progress progress_complete st in
      mkOutcome st colorBytes bwBytes dl
  end.

(** The state [processPDFs] starts the loops from: both documents just
    created, the counters reset. *)
Definition start : Run :=
  mkRun [] [] (mkResults 0 0) progress_starting [].

(** A run: [processPDFs] past its guard, on a list of files, when the
    calls that no inner [try] block guards go through; [fullRun] below
    has the runs in which one of them throws. *)
Definition splitRun (colorThreshold : JS.number) (insertBlankPages : bool)
           (io : OutputEnv) (files : list File) : Outcome :=
  generate io
    (processFiles colorThreshold insertBlankPages (length files) 0 files
       start).

(** [processPDFs]: nothing happens, and the previous results stay, when no
    file is selected. *)
Definition processPDFs (colorThreshold : JS.number) (insertBlankPages : bool)
           (io : OutputEnv) (files : option (list File)) : option Outcome :=
  match files with
  | None | Some [] => None
  | Some fs => Some (splitRun colorThreshold insertBlankPages io fs)
  end.

Definition all_ok : OutputEnv := mkOutputEnv true true true true.

Definition fileA : File :=
  mkFile "A.pdf"%string (Opened [mkPage (Some red_page) true;
                          mkPage (Some white_page) true;
                          mkPage (Some red_page) true]).
Definition fileB : File :=
  mkFile "B.pdf"%string (Opened [mkPage (Some white_page) true]).
Definition unreadable (n : string) : File := mkFile n Unreadable.

(* ================================================================== *)
(** ** processPDFs, with the calls no inner try guards *)

(** Four calls of the PDF library sit in no [try] block of their own: the
    two [PDFDocument.create()], before the outer [try], and inside it
    [sourcePDF.getPageCount()] and the two [addPage()] of the separator.
    When one of the last three throws the outer [catch] takes over: the
    file loop is cut short, the error goes to the console, the text is
    [error_unexpected] and nothing is saved or downloaded. When a
    [create()] rejects no [try] has been entered: the rejection escapes,
    [finally] does not run and [processing] stays set. *)

(** Which of the three calls inside the outer [try] throws for a file, if
    it is reached. *)
Inductive Mishap :=
| CountThrows        (* [sourcePDF.getPageCount()] *)
| ColorBlankThrows   (* [colorPDF.addPage()] *)
| BwBlankThrows.     (* [bwPDF.addPage()] *)

(** A turn of the file loop goes on to the next one or throws. *)
Inductive Step :=
| Next (st : Run)
| Thrown (st : Run).

Section Outer.

Variable colorThreshold : JS.number.
Variable insertBlankPages : bool.

(** The body of the file loop. [getPageCount] is called once the file
    was read and loaded, before [pdfjsLib.getDocument]; the two
    [addPage()] are called, the colour one first, when a separator is due.
    Where none of them throws the turn is [processFile]. *)
Definition processFileOuter (total fileIndex : nat)
           (answer : File * option Mishap) (st : Run) : Step :=
  let file := fst answer in
  let entered :=
    set_progress
      (progress_processing_file (name file) (fileIndex + 1) total) st in
  let turn :=
    Next (processFile colorThreshold insertBlankPages total fileIndex
                      file st) in
  match body file, snd answer with
  | NotRenderable _, Some CountThrows => Thrown entered
  | Opened _, Some CountThrows => Thrown entered
  | Opened _, Some ColorBlankThrows =>
      if insertBlankPages && (0 <? fileIndex)%nat
      then Thrown entered else turn
  | Opened _, Some BwBlankThrows =>
      if insertBlankPages && (0 <? fileIndex)%nat
      then Thrown (add_color Blank entered) else turn
  | _, _ => turn
  end.

(** The file loop, from [fileIndex] on, until a turn throws. *)
Fixpoint processFilesOuter (total fileIndex : nat)
         (answers : list (File * option Mishap)) (st : Run) : Step :=
  match answers with
  | [] => Next st
  | answer :: rest =>
      match processFileOuter total fileIndex answer st with
      | Next st' => processFilesOuter total (S fileIndex) rest st'
      | Thrown st' => Thrown st'
      end
  end.

End Outer.

(** How a call of [processPDFs] that got past its guard is left. *)
Inductive Ending :=
| Returned   (* at the end of the [try] block, or at the [return] of the
                save step *)
| Caught     (* through the outer [catch] *)
| Escaped.   (* by the rejection of a [create()] *)

(** What the call leaves behind: the outcome, and the [processing] flag,
    which [finally] clears. *)
Record FullOutcome := mkFull {
  ending : Ending;
  outcome : Outcome;
  processing : bool
}.

(** [processPDFs] past its guard, whatever the library answers;
    [createOk] says whether the two [create()] go through. *)
Definition fullRun (colorThreshold : JS.number) (insertBlankPages : bool)
           (createOk : bool) (io : OutputEnv)
           (answers : list (File * option Mishap)) : FullOutcome :=
  if createOk then
    match processFilesOuter colorThreshold insertBlankPages
                            (length answers) 0 answers start with
    | Next st => mkFull Returned (generate io st) false
    | Thrown st =>
        mkFull Caught
               (mkOutcome (set_progress error_unexpected
                             (console_error ErrUnexpected st))
                          None None [])
               false
    end
  else mkFull Escaped (mkOutcome start None None []) true.

(** Whether the call a mishap is about is reached for the file. *)
Definition reached (insertBlankPages : bool) (fileIndex : nat)
           (answer : File * option Mishap) : bool :=
  match body (fst answer), snd answer with
  | NotRenderable _, Some CountThrows => true
  | Opened _, Some CountThrows => true
  | Opened _, Some ColorBlankThrows => insertBlankPages && (0 <? fileIndex)%nat
  | Opened _, Some BwBlankThrows => insertBlankPages && (0 <? fileIndex)%nat
  | _, _ => false
  end.

(** No mishap is reached from [fileIndex] on. *)
Fixpoint calm (insertBlankPages : bool) (fileIndex : nat)
         (answers : list (File * option Mishap)) : bool :=
  match answers with
  | [] => true
  | answer :: rest =>
      negb (reached insertBlankPages fileIndex answer)
      && calm insertBlankPages (S fileIndex) rest
  end.

(** A file whose page count cannot be read although it loaded. *)
Definition damaged (n : string) : File * option Mishap :=
  (mkFile n (Opened []), Some CountThrows).

(* ================================================================== *)
(** ** The page around the script *)

(** The markup of the page reads the state of the script; these are the
    expressions a run shows through.

    [disabled] of the button that calls [processPDFs]:
    [!files || files.length === 0 || processing]. *)
Definition buttonDisabled (files : option (list File)) (processing : bool)
  : bool :=
  match files with
  | None => true
  | Some fs => (length fs =? 0) || processing
  end.

(** The width of the progress bar, in percent:
    [Math.min((results.colorPages + results.bwPages) * 10, 100)]. *)
Definition progressWidth (r : Results) : nat :=
  Nat.min ((colorPages r + bwPages r) * 10) 100.

(** Whether the results panel is rendered:
    [results.colorPages > 0 || results.bwPages > 0]. *)
Definition resultsShown (r : Results) : bool :=
  (0 <? colorPages r) || (0 <? bwPages r).

(** The two lines of the downloads box, each a choice between two
    messages on whether its counter is positive. *)
Inductive DownloadNote :=
| color_pdf_downloaded
| no_color_pages
| bw_pdf_downloaded
| no_bw_pages.

Definition colorNote (r : Results) : DownloadNote :=
  if 0 <? colorPages r then color_pdf_downloaded else no_color_pages.

Definition bwNote (r : Results) : DownloadNote :=
  if 0 <? bwPages r then bw_pdf_downloaded else no_bw_pages.


(* ================================================================== *)
(** ** What a run is expected to leave behind *)

(** The source pages of a document, blank pages left out. *)
Fixpoint copied (doc : PDFDocument) : list (nat * nat) :=
  match doc with
  | [] => []
  | Blank :: rest => copied rest
  | Copied i p :: rest => (i, p) :: copied rest
  end.

(** What a stretch of the run adds to the two documents and to the
    console. *)
Record Delta := mkDelta {
  d_color : PDFDocument;
  d_bw : PDFDocument;
  d_console : list ConsoleError
}.

Definition delta0 : Delta := mkDelta [] [] [].

Definition delta_app (d1 d2 : Delta) : Delta :=
  mkDelta (d_color d1 ++ d_color d2) (d_bw d1 ++ d_bw d2)
          (d_console d1 ++ d_console d2).

(** [st'] is [st] with [d] appended, every copied page counted. *)
Definition extends (st st' : Run) (d : Delta) : Prop :=
  colorPDF st' = colorPDF st ++ d_color d /\
  bwPDF st' = bwPDF st ++ d_bw d /\
  colorPages (results st') =
    colorPages (results st) + length (copied (d_color d)) /\
  bwPages (results st') =
    bwPages (results st) + length (copied (d_bw d)) /\
  console st' = console st ++ d_console d.

Section Expected.

Variable colorThreshold : JS.number.
Variable insertBlankPages : bool.

(** The class a page gets: the verdict of [detectColor] on its raster. *)
Definition isColorPage (pg : PageEnv) : bool :=
  match render pg with
  | Some imageData => detectColor imageData colorThreshold
  | None => false
  end.

Definition page_delta (fileIndex : nat) (filename : string)
           (pageIndex : nat) (pg : PageEnv) : Delta :=
  mkDelta
    (if copyable pg && isColorPage pg
     then [Copied fileIndex pageIndex] else [])
    (if copyable pg && negb (isColorPage pg)
     then [Copied fileIndex pageIndex] else [])
    ((match render pg with
      | Some _ => []
      | None => [ErrProcessingPage (pageIndex + 1) filename]
      end)
     ++ (if copyable pg then []
         else [ErrCopyingPage (pageIndex + 1) filename])).

Fixpoint pages_delta (fileIndex : nat) (filename : string)
         (pageIndex : nat) (pages : list PageEnv) : Delta :=
  match pages with
  | [] => delta0
  | pg :: rest =>
      delta_app (page_delta fileIndex filename pageIndex pg)
                (pages_delta fileIndex filename (S pageIndex) rest)
  end.

Definition separator (fileIndex : nat) : PDFDocument :=
  if insertBlankPages && (0 <? fileIndex)%nat then [Blank] else [].

Definition file_delta (fileIndex : nat) (file : File) : Delta :=
  match body file with
  | Unreadable => mkDelta [] [] [ErrReadingFile (name file)]
  | InvalidPDF => mkDelta [] [] [ErrLoadingPDF (name file)]
  | NotRenderable _ => mkDelta [] [] [ErrLoadingPdfjs (name file)]
  | Opened pages =>
      delta_app (mkDelta (separator fileIndex) (separator fileIndex) [])
                (pages_delta fileIndex (name file) 0 pages)
  end.

Fixpoint files_delta (fileIndex : nat) (files : list File) : Delta :=
  match files with
  | [] => delta0
  | file :: rest =>
      delta_app (file_delta fileIndex file)
                (files_delta (S fileIndex) rest)
  end.

End Expected.

(** The page jobs of a run: every page of every opened file, in the order
    the loops visit them. *)
Record Job := mkJob {
  job_file : nat;
  job_page : nat;
  job_name : string;
  job_env : PageEnv
}.

Fixpoint jobs_of_pages (fileIndex : nat) (filename : string)
         (pageIndex : nat) (pages : list PageEnv) : list Job :=
  match pages with
  | [] => []
  | pg :: rest =>
      mkJob fileIndex pageIndex filename pg
      :: jobs_of_pages fileIndex filename (S pageIndex) rest
  end.

Definition jobs_of_file (fileIndex : nat) (file : File) : list Job :=
  match body file with
  | Opened pages => jobs_of_pages fileIndex (name file) 0 pages
  | _ => []
  end.

Fixpoint jobs_from (fileIndex : nat) (files : list File) : list Job :=
  match files with
  | [] => []
  | file :: rest => jobs_of_file fileIndex file ++ jobs_from (S fileIndex) rest
  end.

Definition job_key (j : Job) : nat * nat := (job_file j, job_page j).

Definition dropped (j : Job) : bool := negb (copyable (job_env j)).

(** The diagnostic of a page whose copy failed. *)
Definition copy_error_of (j : Job) : ConsoleError :=
  ErrCopyingPage (job_page j + 1) (job_name j).

Definition is_copy_error (e : ConsoleError) : bool :=
  match e with ErrCopyingPage _ _ => true | _ => false end.

(** Page [p] of the file at index [i], when that file was opened. *)
Definition lookup_page (files : list File) (i p : nat) : option PageEnv :=
  match nth_error files i with
  | Some file =>
      match body file with
      | Opened pages => nth_error pages p
      | _ => None
      end
  | None => None
  end.

Definition key_eq_dec (x y : nat * nat) : {x = y} + {x <> y}.
Proof. decide equality; apply Nat.eq_dec. Defined.

Arguments key_eq_dec : simpl never.

Definition occurrences (k : nat * nat) (doc : PDFDocument) : nat :=
  count_occ key_eq_dec (copied doc) k.

(** [1] when the page exists and [f] holds of it, [0] otherwise. *)
Definition routed (f : PageEnv -> bool) (o : option PageEnv) : nat :=
  match o with
  | Some pg => if f pg then 1 else 0
  | None => 0
  end.

(** The keys of the jobs whose page satisfies [f]. *)
Definition chosen (f : PageEnv -> bool) (js : list Job) : list (nat * nat) :=
  map job_key (filter (fun j => f (job_env j)) js).

(** Where a page ends up: in the colour document, in the black-and-white
    one, or in neither when its copy fails. *)
Definition goes_color (colorThreshold : JS.number) (pg : PageEnv) : bool :=
  copyable pg && isColorPage colorThreshold pg.
Definition goes_bw (colorThreshold : JS.number) (pg : PageEnv) : bool :=
  copyable pg && negb (isColorPage colorThreshold pg).

(** The console lines of the part after the loops. *)
Definition output_errors (io : OutputEnv) (r : Results)
  : list ConsoleError :=
  if ((0 <? colorPages r)%nat && negb (colorSaveOk io))
     || ((0 <? bwPages r)%nat && negb (bwSaveOk io))
  then [ErrGeneratingPDFs]
  else (if (0 <? colorPages r)%nat && negb (colorDownloadOk io)
        then [ErrDownloadingColor] else [])
       ++ (if (0 <? bwPages r)%nat && negb (bwDownloadOk io)
           then [ErrDownloadingBW] else []).

(* ================================================================== *)
(** ** The counters, as integers *)

(** The value of a counter that started at [0] and was incremented [n]
    times with [++]: the increments are exact up to [2^53], and there
    [2^53 + 1] rounds back to [2^53]. *)
Definition number_of_count (n : Z) : JS.number :=
  of_uint63 (Uint63.of_Z (Z.min n (2 ^ 53))).

(** How many times each counter was incremented. *)
Record Counts := mkCounts {
  n_color : Z;
  n_sampled : Z;
  n_bright : Z;
  n_dark : Z
}.

Definition counts0 : Counts := mkCounts 0 0 0 0.

Definition numbers (c : Counts) : Tally :=
  mkTally (number_of_count (n_color c)) (number_of_count (n_sampled c))
          (number_of_count (n_bright c)) (number_of_count (n_dark c)).

Definition counted (c : Counts) : Prop :=
  (0 <= n_color c)%Z /\ (0 <= n_sampled c)%Z /\
  (0 <= n_bright c)%Z /\ (0 <= n_dark c)%Z.

(** [sample] on the numbers of increments. *)
Definition count_sample (threshold : JS.number) (d : list byte)
           (c : Counts) (i : nat) : Counts :=
  let r := data_at d i in
  let g := data_at d (i + 1) in
  let b := data_at d (i + 2) in
  let a := data_at d (i + 3) in
  if JS.lt a 128%float then c
  else
    let lum := luminance r g b in
    mkCounts
      (if isColorPixel threshold r g b
       then (n_color c + 1)%Z else n_color c)
      (n_sampled c + 1)%Z
      (if JS.gt lum 200%float then (n_bright c + 1)%Z else n_bright c)
      (if JS.gt lum 200%float then n_dark c
       else if JS.lt lum 55%float then (n_dark c + 1)%Z else n_dark c).

Definition counts_of (threshold : JS.number) (d : list byte) : Counts :=
  fold_left (count_sample threshold d) (sample_indices (length d)) counts0.

(** The counts of two runs of the loop over the same buffer, the first
    at the lower threshold. *)
Definition dominates (c1 c2 : Counts) : Prop :=
  n_sampled c1 = n_sampled c2 /\
  n_bright c1 = n_bright c2 /\
  n_dark c1 = n_dark c2 /\
  (0 <= n_color c2 <= n_color c1)%Z /\
  (0 <= n_sampled c2)%Z.

(** The number a byte value stands for. *)
Definition number_of_N (n : N) : JS.number :=
  of_uint63 (Uint63.of_Z (Z.of_N n)).

(** The part of [isColorPixel] that does not look at the threshold. *)
Definition color_by_chroma (r g b : JS.number) : bool :=
  if JS.lt (luminance r g b) 55%float then JS.gt (chroma r g b) 8%float
  else if JS.gt (luminance r g b) 200%float
       then JS.gt (chroma r g b) 10%float
       else JS.gt (chroma r g b) 12%float
            && JS.gt (saturation r g b) 0.1%float.

(** A dark pixel whose scaled saturation reaches 100. *)
Definition dark_saturated (r g b : JS.number) : bool :=
  JS.lt (luminance r g b) 55%float
  && PrimFloat.leb 100%float (saturation r g b * 100)%float.

Definition colored_below_100 (r g b : JS.number) : bool :=
  color_by_chroma r g b || dark_saturated r g b.

Definition byte_values : list N := map N.of_nat (seq 0 256).

(** The check of the pixels with a zero channel beside the channels [x]
    and [y], not both zero. *)
Definition saturated_check (x y : N) : bool :=
  (N.max x y =? 0)%N
  || (colored_below_100 (number_of_N 0) (number_of_N x) (number_of_N y)
      && colored_below_100 (number_of_N x) (number_of_N 0) (number_of_N y)
      && colored_below_100 (number_of_N x) (number_of_N y) (number_of_N 0)).

(** A colour with a zero channel and a non-zero one: saturation 1. *)
Definition fully_saturated (r g b : byte) : Prop :=
  N.min (N.min (Byte.to_N r) (Byte.to_N g)) (Byte.to_N b) = 0%N /\
  (1 <= N.max (N.max (Byte.to_N r) (Byte.to_N g)) (Byte.to_N b))%N.

(* ================================================================== *)
(** ** The sampled pixels, one by one *)

(** What the loop body decides about the pixel at index [i]: whether it
    is counted at all, and which counters it moves. *)
Definition opaque (d : list byte) (i : nat) : bool :=
  negb (JS.lt (data_at d (i + 3)) 128%float).

Definition pixel_luminance (d : list byte) (i : nat) : JS.number :=
  luminance (data_at d i) (data_at d (i + 1)) (data_at d (i + 2)).

Definition color_sample (threshold : JS.number) (d : list byte) (i : nat)
  : bool :=
  opaque d i
  && isColorPixel threshold (data_at d i) (data_at d (i + 1))
                  (data_at d (i + 2)).

Definition bright_sample (d : list byte) (i : nat) : bool :=
  opaque d i && JS.gt (pixel_luminance d i) 200%float.

Definition dark_sample (d : list byte) (i : nat) : bool :=
  opaque d i && negb (JS.gt (pixel_luminance d i) 200%float)
  && JS.lt (pixel_luminance d i) 55%float.

(** How many of the indices satisfy [f]. *)
Definition how_many (f : nat -> bool) (indices : list nat) : Z :=
  Z.of_nat (length (filter f indices)).

(** A white page but for its second pixel, which is red. *)
Definition speckled_page : ImageData :=
  mkImageData 25 1
    ([xff; xff; xff; xff] ++ [xff; x00; x00; xff]
     ++ concat (repeat [xff; xff; xff; xff] 23)).

(** One coloured pixel out of [s] counted ones is above the base
    threshold of the verdict. *)
Definition one_in (s : Z) : bool :=
  JS.gt (number_of_count 1 / number_of_count s * 100)%float 0.01%float.

Definition small_counts : list Z :=
  map Z.of_nat (seq 1 (Z.to_nat 9999)).

(* ================================================================== *)
(** ** The documents of a run *)

(** The order of the loops on source pages: by file, then by page. *)
Definition key_lt (a b : nat * nat) : Prop :=
  fst a < fst b \/ (fst a = fst b /\ snd a < snd b).

(** Whether the three loads of a file went through, and how many pages
    the page loop then visits. *)
Definition opened (file : File) : bool :=
  match body file with Opened _ => true | _ => false end.

Definition pagesOf (file : File) : nat :=
  match body file with Opened pages => length pages | _ => 0 end.

Definition is_blank (p : Page) : bool :=
  match p with Blank => true | Copied _ _ => false end.

Definition blanks (doc : PDFDocument) : nat := length (filter is_blank doc).

(** A [save] that was attempted threw. *)
Definition save_failed (io : OutputEnv) (r : Results) : bool :=
  ((0 <? colorPages r)%nat && negb (colorSaveOk io))
  || ((0 <? bwPages r)%nat && negb (bwSaveOk io)).

(** A page, a file for which nothing throws. *)
Definition clean_page (pg : PageEnv) : bool :=
  match render pg with Some _ => copyable pg | None => false end.

Definition clean_file (file : File) : bool :=
  match body file with
  | Opened pages => forallb clean_page pages
  | _ => false
  end.

(** A document with its blank pages taken out. *)
Definition without_blanks (doc : PDFDocument) : PDFDocument :=
  filter (fun p => negb (is_blank p)) doc.

(* ================================================================== *)
(** ** Rounding, in real numbers *)

Section Located.

Local Open Scope R_scope.

(** Powers of two. *)
Definition bpow (e : Z) : R := powerRZ 2 e.

(** [x] lies in [[m, m+1) * 2^e], at the place [l] says: on the left end,
    below, at or above the middle. *)
Definition inbetween (x : R) (m e : Z) (l : location) : Prop :=
  match l with
  | loc_Exact => x = IZR m * bpow e
  | loc_Inexact c =>
      IZR m * bpow e < x < (IZR m + 1) * bpow e /\
      match c with
      | Lt => x < (IZR m + / 2) * bpow e
      | Eq => x = (IZR m + / 2) * bpow e
      | Gt => (IZR m + / 2) * bpow e < x
      end
  end.

(** The same for the record the shifts work on. *)
Definition locates (x : R) (mrs : shr_record) (e : Z) : Prop :=
  (0 <= shr_m mrs)%Z /\ inbetween x (shr_m mrs) e (loc_of_shr_record mrs).

(** A located number in the slot of its binade: the mantissa has at most
    [prec] digits, exactly [prec] above the smallest exponent. *)
Definition slot (x : R) (M E : Z) (l : location) : Prop :=
  (0 <= M < 2 ^ 53)%Z /\ (-1074 <= E)%Z /\
  ((2 ^ 52 <= M)%Z \/ E = (-1074)%Z) /\
  inbetween x M E l.

(** What a result of rounding with sign [s] looks like, [V] being the
    absolute value it stands for. *)
Definition rounded (s : bool) (V : R) (z : spec_float) : Prop :=
  match z with
  | S754_zero s' => s' = s /\ V = 0
  | S754_finite s' p E =>
      s' = s /\ V = IZR (Zpos p) * bpow E /\ bounded prec emax p E = true
  | S754_infinity s' => s' = s /\ bpow 1024 <= V
  | S754_nan => False
  end.

(** The numbers that are zero or above, and zero or below. *)
Definition nonneg (z : spec_float) : Prop :=
  match z with
  | S754_zero _ | S754_finite false _ _ | S754_infinity false => True
  | _ => False
  end.

Definition nonpos (z : spec_float) : Prop :=
  match z with
  | S754_zero _ | S754_finite true _ _ | S754_infinity true => True
  | _ => False
  end.

End Located.

Arguments bpow : simpl never.

(* ================================================================== *)
(** ** The loops against the expected effects *)

Lemma copied_app (d1 d2 : PDFDocument) :
  copied (d1 ++ d2) = copied d1 ++ copied d2.
Proof.
  induction d1 as [|[|i p] d1 IH]; simpl; auto.
  now rewrite IH.
Qed.

Lemma extends_refl (st : Run) : extends st st delta0.
Proof.
  unfold extends; simpl.
  now rewrite !app_nil_r, !Nat.add_0_r.
Qed.

Lemma extends_trans (a b c : Run) (d1 d2 : Delta) :
  extends a b d1 -> extends b c d2 -> extends a c (delta_app d1 d2).
Proof.
  unfold extends; simpl.
  intros (Hc1 & Hb1 & Hn1 & Hm1 & He1) (Hc2 & Hb2 & Hn2 & Hm2 & He2).
  rewrite Hc2, Hb2, Hn2, Hm2, He2, Hc1, Hb1, Hn1, Hm1, He1.
  rewrite !copied_app, !length_app, <- !app_assoc.
  repeat split; lia.
Qed.

Section Loops.

Variable colorThreshold : JS.number.
Variable insertBlankPages : bool.

Lemma processPage_extends i n pc p pg st :
  extends st (processPage colorThreshold i n pc p pg st)
          (page_delta colorThreshold i n p pg).
Proof.
  unfold processPage, page_delta, isColorPage, extends.
  destruct (render pg) as [img|];
    [destruct (detectColor img colorThreshold)|];
    destruct (copyable pg); simpl;
    rewrite ?app_nil_r, ?Nat.add_0_r, ?Nat.add_1_r, <- ?app_assoc;
    simpl; auto 6.
Qed.

Lemma processPages_extends i n pc pages : forall p st,
  extends st (processPages colorThreshold i n pc p pages st)
          (pages_delta colorThreshold i n p pages).
Proof.
  induction pages as [|pg rest IH]; intros p st; simpl.
  - apply extends_refl.
  - eapply extends_trans; [apply processPage_extends | apply IH].
Qed.

Lemma processFile_extends total i file st :
  extends st (processFile colorThreshold insertBlankPages total i file st)
          (file_delta colorThreshold insertBlankPages i file).
Proof.
  unfold processFile, file_delta.
  destruct (body file) as [| |pc|pages].
  1-3: unfold extends; simpl;
       rewrite ?app_nil_r, ?Nat.add_0_r; auto 6.
  eapply extends_trans; [|apply processPages_extends].
  unfold separator, extends.
  destruct (insertBlankPages && (0 <? i)%nat); simpl;
    rewrite ?app_nil_r, ?Nat.add_0_r; auto 6.
Qed.

Lemma processFiles_extends total files : forall i st,
  extends st
          (processFiles colorThreshold insertBlankPages total i files st)
          (files_delta colorThreshold insertBlankPages i files).
Proof.
  induction files as [|file rest IH]; intros i st; simpl.
  - apply extends_refl.
  - eapply extends_trans; [apply processFile_extends | apply IH].
Qed.

End Loops.

(* ================================================================== *)
(** ** The expected effects, page by page *)

Section Jobs.

Variable f : PageEnv -> bool.

Lemma chosen_cons j js :
  chosen f (j :: js) =
  if f (job_env j) then job_key j :: chosen f js else chosen f js.
Proof. unfold chosen; simpl. now destruct (f (job_env j)). Qed.

Lemma chosen_app js1 js2 :
  chosen f (js1 ++ js2) = chosen f js1 ++ chosen f js2.
Proof. unfold chosen. now rewrite filter_app, map_app. Qed.

Lemma count_chosen_cons j js k :
  count_occ key_eq_dec (chosen f (j :: js)) k =
  (if f (job_env j) then if key_eq_dec (job_key j) k then 1 else 0 else 0)
  + count_occ key_eq_dec (chosen f js) k.
Proof.
  rewrite chosen_cons. destruct (f (job_env j)); [|reflexivity].
  cbn [count_occ]. now destruct (key_eq_dec (job_key j) k).
Qed.

Lemma count_jobs_of_pages n (i' i p : nat) pages : forall p0,
  count_occ key_eq_dec (chosen f (jobs_of_pages i' n p0 pages)) (i, p) =
  if (i =? i') && (p0 <=? p)
  then routed f (nth_error pages (p - p0)) else 0.
Proof.
  induction pages as [|pg rest IH]; intros p0.
  - simpl. destruct ((i =? i') && (p0 <=? p)); [destruct (p - p0)|];
      reflexivity.
  - cbn [jobs_of_pages]. rewrite count_chosen_cons, IH.
    unfold job_key; cbn [job_env job_file job_page].
    destruct (key_eq_dec (i', p0) (i, p)) as [E|E].
    + injection E as -> ->.
      rewrite Nat.eqb_refl, Nat.leb_refl, Nat.sub_diag.
      destruct (Nat.leb_spec (S p) p); [lia|].
      cbn [andb nth_error routed]. now destruct (f pg).
    + destruct (Nat.eqb_spec i i') as [->|Hi]; cbn [andb];
        [|now destruct (f pg)].
      destruct (Nat.leb_spec (S p0) p) as [H1|H1].
      * destruct (Nat.leb_spec p0 p); [|lia].
        replace (p - p0) with (S (p - S p0)) by lia.
        cbn [nth_error]. now destruct (f pg).
      * destruct (Nat.leb_spec p0 p) as [H2|H2]; [|now destruct (f pg)].
        exfalso. apply E. f_equal. lia.
Qed.

Lemma count_jobs_from (i p : nat) files : forall i0,
  count_occ key_eq_dec (chosen f (jobs_from i0 files)) (i, p) =
  if i0 <=? i then routed f (lookup_page files (i - i0) p) else 0.
Proof.
  induction files as [|file rest IH]; intros i0.
  - simpl. destruct (i0 <=? i); [|reflexivity].
    unfold lookup_page. now destruct (i - i0).
  - cbn [jobs_from]. rewrite chosen_app, count_occ_app, IH.
    assert (Hfile :
      count_occ key_eq_dec (chosen f (jobs_of_file i0 file)) (i, p) =
      if i =? i0 then routed f (lookup_page [file] 0 p) else 0).
    { unfold jobs_of_file, lookup_page; simpl.
      destruct (body file) as [| |pc|pages]; simpl;
        try (now destruct (i =? i0)).
      rewrite count_jobs_of_pages, Nat.sub_0_r; simpl.
      now rewrite andb_true_r. }
    rewrite Hfile.
    destruct (Nat.eqb_spec i i0) as [->|Hne].
    + rewrite Nat.leb_refl, Nat.sub_diag.
      destruct (Nat.leb_spec (S i0) i0); [lia|].
      unfold lookup_page; simpl. lia.
    + destruct (Nat.leb_spec i0 i) as [Hle|Hlt].
      * destruct (Nat.leb_spec (S i0) i); [|lia].
        now replace (i - i0) with (S (i - S i0)) by lia.
      * destruct (Nat.leb_spec (S i0) i); [lia|reflexivity].
Qed.

End Jobs.

Section DeltaJobs.

Variable colorThreshold : JS.number.
Variable insertBlankPages : bool.

Lemma separator_copied i : copied (separator insertBlankPages i) = [].
Proof. unfold separator. now destruct (_ && _). Qed.

Lemma pages_delta_jobs i n pages : forall p0,
  let d := pages_delta colorThreshold i n p0 pages in
  let js := jobs_of_pages i n p0 pages in
  copied (d_color d) = chosen (goes_color colorThreshold) js /\
  copied (d_bw d) = chosen (goes_bw colorThreshold) js /\
  filter is_copy_error (d_console d) = map copy_error_of (filter dropped js).
Proof.
  induction pages as [|pg rest IH]; intros p0; [now auto|].
  destruct (IH (S p0)) as (Hc & Hb & He).
  cbn [pages_delta jobs_of_pages delta_app d_color d_bw d_console].
  rewrite !copied_app, !chosen_cons, filter_app, Hc, Hb, He.
  cbn [filter dropped job_env page_delta d_color d_bw d_console].
  unfold goes_color, goes_bw, job_key, copy_error_of, dropped.
  cbn [job_file job_page job_name job_env].
  destruct (render pg), (copyable pg), (isColorPage colorThreshold pg);
    simpl; auto.
Qed.

Lemma files_delta_jobs files : forall i0,
  let d := files_delta colorThreshold insertBlankPages i0 files in
  let js := jobs_from i0 files in
  copied (d_color d) = chosen (goes_color colorThreshold) js /\
  copied (d_bw d) = chosen (goes_bw colorThreshold) js /\
  filter is_copy_error (d_console d) = map copy_error_of (filter dropped js).
Proof.
  induction files as [|file rest IH]; intros i0; [now auto|].
  destruct (IH (S i0)) as (Hc & Hb & He).
  cbn [files_delta jobs_from delta_app d_color d_bw d_console].
  rewrite !copied_app, !chosen_app, !filter_app, map_app, Hc, Hb, He.
  unfold file_delta, jobs_of_file.
  destruct (body file) as [| |pc|pages]; auto.
  destruct (pages_delta_jobs i0 (name file) pages 0) as (Hc' & Hb' & He').
  cbn [delta_app d_color d_bw d_console].
  rewrite !copied_app, separator_copied, Hc', Hb'.
  cbn [app]. now rewrite He'.
Qed.

End DeltaJobs.

(* ================================================================== *)
(** ** The end of a run *)

Lemma generate_final io st :
  colorPDF (final (generate io st)) = colorPDF st /\
  bwPDF (final (generate io st)) = bwPDF st /\
  results (final (generate io st)) = results st /\
  console (final (generate io st)) =
    console st ++ output_errors io (results st).
Proof.
  unfold generate, savePDFs, output_errors.
  destruct st as [c b [nc nb] m e]; simpl.
  destruct io as [[] [] [] []], nc as [|nc], nb as [|nb]; simpl;
    rewrite ?app_nil_r, <- ?app_assoc; auto.
Qed.

(** Past its guard [processPDFs] is [splitRun]. *)
Lemma processPDFs_runs colorThreshold insertBlankPages io file files :
  processPDFs colorThreshold insertBlankPages io (Some (file :: files))
  = Some (splitRun colorThreshold insertBlankPages io (file :: files)).
Proof. reflexivity. Qed.

Lemma processPDFs_guard colorThreshold insertBlankPages io :
  processPDFs colorThreshold insertBlankPages io None = None /\
  processPDFs colorThreshold insertBlankPages io (Some []) = None.
Proof. split; reflexivity. Qed.

Lemma results_eta (r : Results) : r = mkResults (colorPages r) (bwPages r).
Proof. now destruct r. Qed.

Section RunFacts.

Variable colorThreshold : JS.number.
Variable insertBlankPages : bool.
Variable io : OutputEnv.
Variable files : list File.

Let o := splitRun colorThreshold insertBlankPages io files.
Let d := files_delta colorThreshold insertBlankPages 0 files.

Lemma splitRun_final :
  colorPDF (final o) = d_color d /\
  bwPDF (final o) = d_bw d /\
  results (final o) =
    mkResults (length (copied (d_color d))) (length (copied (d_bw d))) /\
  console (final o) = d_console d ++ output_errors io (results (final o)).
Proof.
  subst o d. unfold splitRun.
  destruct (generate_final io
              (processFiles colorThreshold insertBlankPages
                 (length files) 0 files start)) as (Hc & Hb & Hr & He).
  destruct (processFiles_extends colorThreshold insertBlankPages
              (length files) files 0 start) as (Hc' & Hb' & Hn & Hm & He').
  rewrite Hc, Hb, Hr, He, Hc', Hb', He'.
  rewrite (results_eta (results _)), Hn, Hm. auto.
Qed.

Lemma splitRun_counts :
  colorPages (results (final o)) = length (copied (colorPDF (final o))) /\
  bwPages (results (final o)) = length (copied (bwPDF (final o))).
Proof.
  destruct splitRun_final as (-> & -> & -> & _). simpl; auto.
Qed.

Lemma splitRun_copied :
  copied (colorPDF (final o)) =
    chosen (goes_color colorThreshold) (jobs_from 0 files) /\
  copied (bwPDF (final o)) =
    chosen (goes_bw colorThreshold) (jobs_from 0 files).
Proof.
  destruct splitRun_final as (Hc & Hb & _).
  destruct (files_delta_jobs colorThreshold insertBlankPages files 0)
    as (Hc' & Hb' & _).
  rewrite Hc, Hb. split; assumption.
Qed.

Lemma splitRun_occurrences i p :
  occurrences (i, p) (colorPDF (final o)) =
    routed (goes_color colorThreshold) (lookup_page files i p) /\
  occurrences (i, p) (bwPDF (final o)) =
    routed (goes_bw colorThreshold) (lookup_page files i p).
Proof.
  unfold occurrences. destruct splitRun_copied as (-> & ->).
  rewrite !count_jobs_from. simpl. now rewrite Nat.sub_0_r.
Qed.

Lemma splitRun_copy_errors :
  filter is_copy_error (console (final o)) =
  map copy_error_of (filter dropped (jobs_from 0 files)).
Proof.
  destruct splitRun_final as (_ & _ & _ & ->).
  destruct (files_delta_jobs colorThreshold insertBlankPages files 0)
    as (_ & _ & He).
  unfold d. rewrite filter_app, He.
  unfold output_errors.
  repeat match goal with |- context [if ?c then _ else _] =>
    destruct c end; simpl; now rewrite app_nil_r.
Qed.

End RunFacts.

(* ================================================================== *)
(** ** Routing *)

(** C7. At-most-once routing. In every run, a page of an opened file
    whose copy goes through occurs exactly once in the two output
    documents taken together, in the colour document when [detectColor]
    said colour and in the black-and-white document otherwise; a page
    whose copy fails occurs in neither; no other source page occurs in
    them. The
    copy diagnostics on the console are, in order, one line per page whose
    copy failed and nothing more, and each counter is the number of source
    pages in its document. *)
Theorem at_most_once_routing
        (colorThreshold : JS.number) (insertBlankPages : bool)
        (io : OutputEnv) (files : list File) :
  let o := final (splitRun colorThreshold insertBlankPages io files) in
  (forall i p,
      match lookup_page files i p with
      | Some pg =>
          if copyable pg then
            occurrences (i, p) (colorPDF o)
            + occurrences (i, p) (bwPDF o) = 1 /\
            occurrences (i, p) (colorPDF o) =
              (if isColorPage colorThreshold pg then 1 else 0)
          else
            occurrences (i, p) (colorPDF o) = 0 /\
            occurrences (i, p) (bwPDF o) = 0
      | None =>
          occurrences (i, p) (colorPDF o) = 0 /\
          occurrences (i, p) (bwPDF o) = 0
      end) /\
  filter is_copy_error (console o) =
    map copy_error_of (filter dropped (jobs_from 0 files)) /\
  colorPages (results o) = length (copied (colorPDF o)) /\
  bwPages (results o) = length (copied (bwPDF o)).
Proof.
  intros o; subst o. split; [|split].
  - intros i p.
    destruct (splitRun_occurrences colorThreshold insertBlankPages io files
                i p) as (-> & ->).
    destruct (lookup_page files i p) as [pg|]; simpl; [|auto].
    unfold goes_color, goes_bw.
    destruct (copyable pg), (isColorPage colorThreshold pg); simpl; auto.
  - apply splitRun_copy_errors.
  - apply splitRun_counts.
Qed.

(** C10. Separator pages are never counted. In every run each counter is
    the number of source pages in its document, blank pages left out, and
    the counters are the same whether separators are inserted or not. *)
Theorem counters_ignore_separators
        (colorThreshold : JS.number) (insertBlankPages : bool)
        (io : OutputEnv) (files : list File) :
  let o := final (splitRun colorThreshold insertBlankPages io files) in
  colorPages (results o) = length (copied (colorPDF o)) /\
  bwPages (results o) = length (copied (bwPDF o)) /\
  results o = results (final (splitRun colorThreshold false io files)) /\
  results o = results (final (splitRun colorThreshold true io files)).
Proof.
  intros o; subst o.
  assert (H : forall b,
    results (final (splitRun colorThreshold b io files)) =
    mkResults
      (length (chosen (goes_color colorThreshold) (jobs_from 0 files)))
      (length (chosen (goes_bw colorThreshold) (jobs_from 0 files)))).
  { intros b.
    destruct (splitRun_final colorThreshold b io files) as (_ & _ & -> & _).
    destruct (files_delta_jobs colorThreshold b files 0) as (-> & -> & _).
    reflexivity. }
  destruct (splitRun_copied colorThreshold insertBlankPages io files)
    as (-> & ->).
  rewrite !H. simpl. auto.
Qed.

(** C6, as the code has it. A page whose rasterization fails is handled
    as a black-and-white page, and the failure is written to the console:
    the page loop goes on with the documents, counters and progress text
    it would have reached had the raster been classified black-and-white.
    When the copy of the page goes through, the page is appended to the
    black-and-white document, the black-and-white counter goes up by one,
    the colour side is untouched and the progress text is still the
    page's own. When the copy fails, the page is dropped like any page
    whose copy fails: nothing is appended, nothing is counted, the
    progress text is the copy error and the console holds the line of
    the rasterization failure followed by the line of the copy failure. *)
Theorem render_failure_defaults_to_bw
        (colorThreshold : JS.number) (fileIndex : nat) (filename : string)
        (pageCount pageIndex : nat) (pg : PageEnv) (st : Run) :
  render pg = None ->
  let st' := processPage colorThreshold fileIndex filename pageCount
                         pageIndex pg st in
  (forall imageData,
      detectColor imageData colorThreshold = false ->
      let st2 := processPage colorThreshold fileIndex filename pageCount
                   pageIndex (mkPage (Some imageData) (copyable pg)) st in
      colorPDF st' = colorPDF st2 /\ bwPDF st' = bwPDF st2 /\
      results st' = results st2 /\ progress st' = progress st2) /\
  (copyable pg = true ->
   bwPDF st' = bwPDF st ++ [Copied fileIndex pageIndex] /\
   bwPages (results st') = S (bwPages (results st)) /\
   colorPDF st' = colorPDF st /\
   colorPages (results st') = colorPages (results st) /\
   progress st' =
     progress_processing_page filename (pageIndex + 1) pageCount /\
   console st' =
     console st ++ [ErrProcessingPage (pageIndex + 1) filename]) /\
  (forall rest,
      processPages colorThreshold fileIndex filename pageCount pageIndex
                   (pg :: rest) st =
      processPages colorThreshold fileIndex filename pageCount
                   (S pageIndex) rest st') /\
  (copyable pg = false ->
   colorPDF st' = colorPDF st /\ bwPDF st' = bwPDF st /\
   results st' = results st /\
   progress st' = error_copying_page (pageIndex + 1) filename /\
   console st' =
     console st ++ [ErrProcessingPage (pageIndex + 1) filename;
                    ErrCopyingPage (pageIndex + 1) filename]).
Proof.
  intros Hr st'; subst st'. unfold processPage. rewrite Hr. simpl.
  split; [|split; [|split]].
  - intros img ->. now destruct (copyable pg).
  - intros ->. simpl. repeat split.
  - intros rest. unfold processPage. now rewrite Hr.
  - intros ->. simpl. rewrite <- app_assoc. repeat split.
Qed.

Lemma render_failure_defaults_to_bw_witness :
  let pg := mkPage None true in
  let st' := processPage 50%float 0 "A.pdf"%string 1 0 pg start in
  bwPDF st' = [Copied 0 0] /\ bwPages (results st') = 1 /\
  colorPDF st' = [] /\ colorPages (results st') = 0 /\
  progress st' = progress_processing_page "A.pdf"%string 1 1 /\
  console st' = [ErrProcessingPage 1 "A.pdf"%string].
Proof.
  intros pg st'.
  destruct (render_failure_defaults_to_bw 50%float 0 "A.pdf"%string 1 0 pg
              start eq_refl) as (_ & H & _).
  exact (H eq_refl).
Defined.

(** C6, as stated, fails twice over. A page whose rasterization and copy
    both fail is not appended to the black-and-white document and not
    counted, and the text shown is the copy error; and when the copy goes
    through the rasterization failure is still written to the console. *)
Lemma render_failure_can_drop_the_page :
  let lost := processPage 50%float 0 "A.pdf"%string 1 0
                          (mkPage None false) start in
  let kept := processPage 50%float 0 "A.pdf"%string 1 0
                          (mkPage None true) start in
  bwPDF lost = [] /\ bwPages (results lost) = 0 /\
  progress lost = error_copying_page 1 "A.pdf"%string /\
  console lost = [ErrProcessingPage 1 "A.pdf"%string;
                  ErrCopyingPage 1 "A.pdf"%string] /\
  console kept = [ErrProcessingPage 1 "A.pdf"%string] /\
  ~ (forall (pg : PageEnv) (st : Run),
        render pg = None ->
        let st' := processPage 50%float 0 "A.pdf"%string 1 0 pg st in
        bwPDF st' = bwPDF st ++ [Copied 0 0] /\
        bwPages (results st') = S (bwPages (results st)) /\
        console st' = console st).
Proof.
  repeat split.
  intros H. destruct (H (mkPage None false) start eq_refl) as (H1 & _).
  discriminate H1.
Qed.

(* ================================================================== *)
(** ** Outputs and report *)

(** In a run that returns, a class with no routed page has no output,
    and with no routed page at all the text is the no-pages text. *)
Lemma splitRun_empty_class
        (colorThreshold : JS.number) (insertBlankPages : bool)
        (io : OutputEnv) (files : list File) :
  let o := splitRun colorThreshold insertBlankPages io files in
  (copied (colorPDF (final o)) = [] ->
   colorPdfBytes o = None /\
   forall dl, In dl (downloads o) ->
              download_name dl <> "color_pages.pdf"%string) /\
  (copied (bwPDF (final o)) = [] ->
   bwPdfBytes o = None /\
   forall dl, In dl (downloads o) ->
              download_name dl <> "bw_pages.pdf"%string) /\
  (copied (colorPDF (final o)) = [] -> copied (bwPDF (final o)) = [] ->
   progress (final o) = error_no_pages /\ downloads o = []).
Proof.
  intros o.
  destruct (splitRun_counts colorThreshold insertBlankPages io files)
    as (Hn & Hm).
  fold o in Hn, Hm. revert Hn Hm.
  subst o. unfold splitRun.
  set (st := processFiles _ _ _ _ _ _).
  destruct (generate_final io st) as (-> & -> & -> & _).
  intros Hn Hm. rewrite <- (length_zero_iff_nil (copied (colorPDF st))).
  rewrite <- (length_zero_iff_nil (copied (bwPDF st))).
  rewrite <- Hn, <- Hm.
  unfold generate, savePDFs.
  destruct st as [c b [[|nc] [|nb]] m e], io as [[] [] [] []]; simpl;
    repeat split; intros; try discriminate;
    repeat match goal with
           | H : _ \/ _ |- _ => destruct H
           | H : False |- _ => destruct H
           | H : _ = ?dl |- download_name ?dl <> _ => subst dl; simpl
           end; try discriminate.
Qed.

(** C9, as the code has it. The report of a run holds the two page counts
    and nothing else; the failures go to the console, in order: one line
    per file that could not be read, decoded or opened for rendering, one
    per page whose rasterization failed and one per page whose copy
    failed, each with the file name (and the page number for a page),
    then the lines of the output step. A run over one unreadable file
    counts no page, writes the one line for that file, downloads nothing
    and ends on the no-pages text. *)
Theorem report_holds_counts_only
        (colorThreshold : JS.number) (insertBlankPages : bool)
        (io : OutputEnv) (files : list File) :
  let o := final (splitRun colorThreshold insertBlankPages io files) in
  results o =
    mkResults
      (length (chosen (goes_color colorThreshold) (jobs_from 0 files)))
      (length (chosen (goes_bw colorThreshold) (jobs_from 0 files))) /\
  console o =
    d_console (files_delta colorThreshold insertBlankPages 0 files)
    ++ output_errors io (results o) /\
  (forall filename,
      let o1 := splitRun colorThreshold insertBlankPages io
                         [mkFile filename Unreadable] in
      results (final o1) = mkResults 0 0 /\
      console (final o1) = [ErrReadingFile filename] /\
      progress (final o1) = error_no_pages /\
      colorPdfBytes o1 = None /\ bwPdfBytes o1 = None /\
      downloads o1 = []).
Proof.
  intros o; subst o. split; [|split].
  - destruct (splitRun_final colorThreshold insertBlankPages io files)
      as (_ & _ & -> & _).
    destruct (files_delta_jobs colorThreshold insertBlankPages files 0)
      as (-> & -> & _).
    reflexivity.
  - apply splitRun_final.
  - intros filename. now destruct io as [[] [] [] []].
Qed.

(** C9, as stated, fails: the report cannot hold one diagnostic per
    failed file, because the run over one unreadable file and the run over
    two return the same report. *)
Lemma report_has_no_diagnostics :
  let one := [unreadable "a.pdf"%string] in
  let two := [unreadable "a.pdf"%string; unreadable "b.pdf"%string] in
  results (final (splitRun 50%float false all_ok one)) =
  results (final (splitRun 50%float false all_ok two)) /\
  length (console (final (splitRun 50%float false all_ok one))) = 1 /\
  length (console (final (splitRun 50%float false all_ok two))) = 2 /\
  ~ exists diagnostics : Results -> list ConsoleError,
      forall files,
        length (diagnostics
                  (results (final (splitRun 50%float false all_ok files))))
        = length (filter (fun f => match body f with
                                   | Unreadable => true
                                   | _ => false
                                   end) files).
Proof.
  repeat split.
  intros (diagnostics & H).
  pose proof (H [unreadable "a.pdf"%string]) as H1.
  pose proof (H [unreadable "a.pdf"%string; unreadable "b.pdf"%string]) as H2.
  simpl in H1, H2. rewrite H1 in H2. discriminate H2.
Qed.

(** C1, on the code. With separators on, when the first file cannot be
    read and the second one opens, the blank page is inserted all the
    same: it is the first page of both documents, before the first page of
    the whole run. *)
Theorem separator_precedes_first_page
        (colorThreshold : JS.number) (io : OutputEnv)
        (bad good : string) (pages : list PageEnv) :
  let o := final (splitRun colorThreshold true io
                    [mkFile bad Unreadable; mkFile good (Opened pages)]) in
  hd_error (colorPDF o) = Some Blank /\ hd_error (bwPDF o) = Some Blank /\
  bwPDF (final (splitRun 50%float true all_ok
                  [unreadable "a.pdf"%string; fileB]))
  = [Blank; Copied 1 0].
Proof.
  intros o; subst o.
  destruct (splitRun_final colorThreshold true io
              [mkFile bad Unreadable; mkFile good (Opened pages)])
    as (-> & -> & _).
  repeat split.
Qed.

(** C2, as the code has it. Two files, separators on, threshold 50: file A
    with three pages classified colour, black-and-white, colour, and
    file B with one page classified black-and-white, every copy going
    through. The counts are 2 and 2; the colour document is A's first and
    third pages followed by the blank page inserted before file B; the
    black-and-white document is A's second page, the blank page, B's
    page. *)
Theorem two_files_scenario
        (io : OutputEnv) (nameA nameB : string) (a1 a2 a3 b1 : PageEnv) :
  map (isColorPage 50%float) [a1; a2; a3] = [true; false; true] ->
  map (isColorPage 50%float) [b1] = [false] ->
  map copyable [a1; a2; a3; b1] = [true; true; true; true] ->
  let o := final (splitRun 50%float true io
                    [mkFile nameA (Opened [a1; a2; a3]);
                     mkFile nameB (Opened [b1])]) in
  results o = mkResults 2 2 /\
  colorPDF o = [Copied 0 0; Copied 0 2; Blank] /\
  bwPDF o = [Copied 0 1; Blank; Copied 1 0].
Proof.
  intros [= Ha1 Ha2 Ha3] [= Hb1] [= Ca1 Ca2 Ca3 Cb1] o; subst o.
  destruct (splitRun_final 50%float true io
              [mkFile nameA (Opened [a1; a2; a3]);
               mkFile nameB (Opened [b1])]) as (-> & -> & -> & _).
  cbn [files_delta file_delta pages_delta page_delta body name delta_app
       d_color d_bw separator delta0].
  rewrite Ha1, Ha2, Ha3, Hb1, Ca1, Ca2, Ca3, Cb1.
  repeat split.
Qed.

Lemma two_files_scenario_witness :
  let o := final (splitRun 50%float true all_ok [fileA; fileB]) in
  results o = mkResults 2 2 /\
  colorPDF o = [Copied 0 0; Copied 0 2; Blank] /\
  bwPDF o = [Copied 0 1; Blank; Copied 1 0].
Proof.
  apply (two_files_scenario all_ok "A.pdf"%string "B.pdf"%string
           (mkPage (Some red_page) true) (mkPage (Some white_page) true)
           (mkPage (Some red_page) true) (mkPage (Some white_page) true));
    vm_compute; reflexivity.
Defined.

(** C2, as stated, fails on the colour document: in the scenario it ends
    with the blank page inserted before file B, so it is not just A's
    first and third pages. *)
Lemma two_files_scenario_color_output :
  let o := final (splitRun 50%float true all_ok [fileA; fileB]) in
  map (isColorPage 50%float)
      [mkPage (Some red_page) true; mkPage (Some white_page) true;
       mkPage (Some red_page) true] = [true; false; true] /\
  isColorPage 50%float (mkPage (Some white_page) true) = false /\
  results o = mkResults 2 2 /\
  bwPDF o = [Copied 0 1; Blank; Copied 1 0] /\
  colorPDF o <> [Copied 0 0; Copied 0 2].
Proof.
  vm_compute. repeat split. discriminate.
Qed.

(* ================================================================== *)
(** ** Counters as numbers *)

(** [number_of_count] against the increments it stands for: below, at and
    past the point where [++] stops changing the counter; [of_count_succ]
    below has it for every count. *)
Example of_count_first : (number_of_count 0 + 1)%float = number_of_count 1.
Proof. reflexivity. Qed.

Example of_count_last_exact :
  (number_of_count (2 ^ 53 - 1) + 1)%float = number_of_count (2 ^ 53).
Proof. vm_compute. reflexivity. Qed.

Example of_count_stuck :
  (number_of_count (2 ^ 53) + 1)%float = number_of_count (2 ^ 53 + 1).
Proof. vm_compute. reflexivity. Qed.

(* ================================================================== *)
(** ** detectColor on transparent pages *)

Lemma of_byte_below_128 (a : byte) :
  (Byte.to_N a < 128)%N -> JS.lt (JS.of_byte a) 128%float = true.
Proof.
  destruct a; intros H; try reflexivity; vm_compute in H; discriminate H.
Qed.

Lemma sample_skips (threshold : JS.number) (d : list byte) (t : Tally)
      (i : nat) :
  JS.lt (data_at d (i + 3)) 128%float = true -> sample threshold d t i = t.
Proof. unfold sample. now intros ->. Qed.

Lemma fold_sample_skips (threshold : JS.number) (d : list byte)
      (indices : list nat) :
  (forall i, In i indices -> JS.lt (data_at d (i + 3)) 128%float = true) ->
  forall t, fold_left (sample threshold d) indices t = t.
Proof.
  induction indices as [|i rest IH]; intros H t; simpl; [reflexivity|].
  rewrite sample_skips by (apply H; now left).
  apply IH. intros j Hj. apply H. now right.
Qed.

(** C4. When every sampled pixel has its alpha byte below 128 (a fully
    transparent page, say), nothing is counted and [detectColor] answers
    false: the page is classified black-and-white. [detectColor] is a
    total function, so there is no failure to speak of. *)
Theorem transparent_page_is_bw (imageData : ImageData)
        (threshold : JS.number) :
  (forall i, In i (sample_indices (length (data imageData))) ->
             exists a, nth_error (data imageData) (i + 3) = Some a /\
                       (Byte.to_N a < 128)%N) ->
  tally_of threshold (data imageData) = tally0 /\
  detectColor imageData threshold = false /\
  classify imageData threshold = BlackAndWhite.
Proof.
  intros H.
  assert (Ht : tally_of threshold (data imageData) = tally0).
  { unfold tally_of. apply fold_sample_skips. intros i Hi.
    destruct (H i Hi) as (a & Ha & Hlt).
    unfold data_at. rewrite Ha. now apply of_byte_below_128. }
  unfold classify, detectColor. rewrite Ht. auto.
Qed.

Lemma transparent_page_is_bw_witness :
  detectColor clear_page 50%float = false /\
  classify clear_page 50%float = BlackAndWhite.
Proof.
  apply (transparent_page_is_bw clear_page 50%float).
  intros i Hi. exists x00. vm_compute in Hi.
  destruct Hi as [<-|[<-|[<-|[]]]]; split; reflexivity.
Defined.

(* ================================================================== *)
(** ** Binary64 arithmetic

    The primitive operations are specified by [SpecFloat]'s algorithms on
    mantissas and exponents. This part relates those algorithms to real
    numbers far enough to get what [detectColor] needs: rounding is
    monotone, so multiplying or dividing by a positive number preserves
    the order. *)

Section Binary64.

Local Open Scope R_scope.

Lemma bpow_pos e : 0 < bpow e.
Proof. apply powerRZ_lt; lra. Qed.

Lemma bpow_add a b : bpow (a + b) = bpow a * bpow b.
Proof. apply powerRZ_add; lra. Qed.

Lemma bpow_succ e : bpow (e + 1) = 2 * bpow e.
Proof. rewrite bpow_add. unfold bpow at 2. simpl. lra. Qed.

Lemma bpow_IZR k : (0 <= k)%Z -> bpow k = IZR (2 ^ k).
Proof.
  intros H. unfold bpow.
  rewrite <- (Z2Nat.id k) at 1 by assumption.
  rewrite <- pow_powerRZ.
  rewrite <- (Z2Nat.id k) at 2 by assumption.
  now rewrite <- pow_IZR.
Qed.

Lemma bpow_ge_1 k : (0 <= k)%Z -> 1 <= bpow k.
Proof.
  intros H. rewrite bpow_IZR by assumption. apply IZR_le.
  pose proof (Z.pow_pos_nonneg 2 k). lia.
Qed.

Lemma bpow_le a b : (a <= b)%Z -> bpow a <= bpow b.
Proof.
  intros H. replace b with (a + (b - a))%Z by lia.
  rewrite bpow_add.
  pose proof (bpow_ge_1 (b - a)). pose proof (bpow_pos a).
  assert (1 <= bpow (b - a)) by (apply H0; lia). nra.
Qed.

Lemma bpow_lt a b : (a < b)%Z -> bpow a < bpow b.
Proof.
  intros H. replace b with (a + 1 + (b - a - 1))%Z by lia.
  rewrite bpow_add, bpow_succ.
  assert (1 <= bpow (b - a - 1)) by (apply bpow_ge_1; lia).
  pose proof (bpow_pos a). nra.
Qed.

Lemma digits2_size p : digits2_pos p = Pos.size p.
Proof. induction p; simpl; congruence. Qed.

Lemma digits_bounds p :
  bpow (Zpos (digits2_pos p) - 1) <= IZR (Zpos p) /\
  IZR (Zpos p) + 1 <= bpow (Zpos (digits2_pos p)).
Proof.
  rewrite digits2_size.
  rewrite !bpow_IZR by lia.
  split.
  - apply IZR_le.
    pose proof (Pos.size_le p) as H.
    assert (2 ^ Zpos (Pos.size p) <= 2 * Zpos p)%Z.
    { rewrite <- Pos2Z.inj_pow. change (2 * Zpos p)%Z with (Zpos p~0). lia. }
    replace (Zpos (Pos.size p)) with (Zpos (Pos.size p) - 1 + 1)%Z in H0 by lia.
    rewrite Z.pow_add_r in H0 by lia. lia.
  - rewrite <- (plus_IZR _ 1). apply IZR_le. pose proof (Pos.size_gt p) as H.
    rewrite <- Pos2Z.inj_pow. lia.
Qed.

Lemma inbetween_bounds x m e l :
  inbetween x m e l -> IZR m * bpow e <= x < (IZR m + 1) * bpow e.
Proof.
  pose proof (bpow_pos e).
  destruct l as [|c]; simpl; [intros ->; lra|intros [? _]; lra].
Qed.

Lemma IZR_xO p : IZR (Zpos p~0) = 2 * IZR (Zpos p).
Proof. change (Zpos p~0) with (2 * Zpos p)%Z. now rewrite mult_IZR. Qed.

Lemma IZR_xI p : IZR (Zpos p~1) = 2 * IZR (Zpos p) + 1.
Proof.
  change (Zpos p~1) with (2 * Zpos p + 1)%Z. now rewrite plus_IZR, mult_IZR.
Qed.

Lemma shr_1_inbetween x mrs e :
  (0 <= shr_m mrs)%Z ->
  inbetween x (shr_m mrs) e (loc_of_shr_record mrs) ->
  (0 <= shr_m (shr_1 mrs))%Z /\
  inbetween x (shr_m (shr_1 mrs)) (e + 1) (loc_of_shr_record (shr_1 mrs)).
Proof.
  destruct mrs as [m r s]. simpl shr_m at 1 2.
  intros Hm. pose proof (bpow_pos e) as Hb.
  destruct m as [|[p|p|]|p]; [ | | | |exfalso; now apply Hm];
    destruct r, s;
    cbn [shr_1 shr_m loc_of_shr_record orb inbetween];
    rewrite ?bpow_succ, ?(IZR_xO p), ?(IZR_xI p);
    intros H; (split; [lia|]); lra.
Qed.

Lemma iter_shr_1_locates x k : forall mrs e,
  locates x mrs e -> locates x (iter_pos shr_1 k mrs) (e + Zpos k).
Proof.
  induction k as [k IH|k IH|]; intros mrs e H; simpl.
  - replace (e + Zpos k~1)%Z with (e + 1 + Zpos k + Zpos k)%Z by lia.
    apply IH, IH. destruct H. now apply shr_1_inbetween.
  - replace (e + Zpos k~0)%Z with (e + Zpos k + Zpos k)%Z by lia.
    now apply IH, IH.
  - destruct H. now apply shr_1_inbetween.
Qed.

Lemma shr_record_of_loc_m m l : shr_m (shr_record_of_loc m l) = m.
Proof. now destruct l as [|[]]. Qed.

Lemma loc_of_shr_record_of_loc m l :
  loc_of_shr_record (shr_record_of_loc m l) = l.
Proof. now destruct l as [|[]]. Qed.

Lemma fexp_eq e : fexp prec emax e = Z.max (e - 53) (-1074).
Proof. reflexivity. Qed.

(** [shr_fexp] brings a located number to the exponent of its binade. *)
Lemma shr_fexp_locates x m e l :
  (0 <= m)%Z -> inbetween x m e l ->
  (e <= fexp prec emax (Zdigits2 m + e))%Z ->
  let '(mrs, e') := shr_fexp prec emax m e l in
  e' = fexp prec emax (Zdigits2 m + e) /\ locates x mrs e'.
Proof.
  intros Hm Hx He. unfold shr_fexp, shr.
  assert (H0 : locates x (shr_record_of_loc m l) e).
  { unfold locates.
    now rewrite shr_record_of_loc_m, loc_of_shr_record_of_loc. }
  destruct (fexp prec emax (Zdigits2 m + e) - e)%Z as [|k|k] eqn:E.
  - split; [lia|assumption].
  - split; [lia|]. now apply iter_shr_1_locates.
  - lia.
Qed.

Lemma Zdigits2_bounds m :
  (0 < m)%Z ->
  bpow (Zdigits2 m - 1) <= IZR m /\ IZR m + 1 <= bpow (Zdigits2 m).
Proof.
  destruct m as [|p|p]; try lia. intros _. apply digits_bounds.
Qed.

Lemma IZR_lt_bpow M k : (0 <= k)%Z -> IZR M < bpow k -> (M < 2 ^ k)%Z.
Proof. intros Hk H. rewrite bpow_IZR in H by assumption. now apply lt_IZR. Qed.

Lemma bpow_le_IZR M k : (0 <= k)%Z -> bpow k < IZR M + 1 -> (2 ^ k <= M)%Z.
Proof.
  intros Hk H. rewrite bpow_IZR in H by assumption.
  rewrite <- (plus_IZR M 1) in H. apply lt_IZR in H. lia.
Qed.

Lemma shr_fexp_slot x m e l :
  (0 <= m)%Z -> inbetween x m e l ->
  (e <= fexp prec emax (Zdigits2 m + e))%Z ->
  let '(mrs, e') := shr_fexp prec emax m e l in
  slot x (shr_m mrs) e' (loc_of_shr_record mrs).
Proof.
  intros Hm Hx He.
  pose proof (shr_fexp_locates x m e l Hm Hx He) as H.
  destruct (shr_fexp prec emax m e l) as [mrs e'].
  destruct H as (He' & HM & Hin).
  set (M := shr_m mrs) in *. set (d := Zdigits2 m) in *.
  rewrite fexp_eq in He, He'.
  pose proof (inbetween_bounds _ _ _ _ Hx) as Bx.
  pose proof (inbetween_bounds _ _ _ _ Hin) as BM.
  pose proof (bpow_pos e) as Pe. pose proof (bpow_pos e') as Pe'.
  unfold slot. repeat split; try assumption; try lia.
  - (* M < 2^53 *)
    apply IZR_lt_bpow; [lia|].
    assert (x < bpow 53 * bpow e'); [|nra].
    destruct (Z.eq_dec m 0) as [->|Hm0].
    + assert (bpow e <= bpow e') by (apply bpow_le; lia).
      assert (1 <= bpow 53) by (apply bpow_ge_1; lia).
      simpl in Bx. nra.
    + pose proof (Zdigits2_bounds m ltac:(lia)) as Bd. fold d in Bd.
      assert (bpow (d + e) <= bpow (53 + e')) by (apply bpow_le; lia).
      rewrite !bpow_add in H. nra.
  - (* normal or at the bottom *)
    destruct (Z.eq_dec e' (-1074)) as [|Hne]; [now right|left].
    assert (Hm0 : (0 < m)%Z).
    { destruct (Z.eq_dec m 0) as [->|]; [|lia]. simpl in d. lia. }
    pose proof (Zdigits2_bounds m Hm0) as Bd. fold d in Bd.
    apply bpow_le_IZR; [lia|].
    assert (bpow 52 * bpow e' <= x); [|nra].
    assert (bpow (d - 1 + e) = bpow (52 + e')) by (f_equal; lia).
    rewrite !bpow_add in H. nra.
Qed.

Lemma rne_bounds M l :
  (M <= round_nearest_even M l <= M + 1)%Z.
Proof.
  destruct l as [|[]]; simpl; try lia. destruct (Z.even M); lia.
Qed.

Lemma Zdigits2_le m k :
  (0 <= k)%Z -> (0 <= m < 2 ^ k)%Z -> (Zdigits2 m <= k)%Z.
Proof.
  intros Hk [H0 H1]. destruct (Z.eq_dec m 0) as [->|]; [simpl; lia|].
  destruct (Zdigits2_bounds m ltac:(lia)) as [Hd _].
  destruct (Z_le_gt_dec (Zdigits2 m) k) as [|Hgt]; [assumption|exfalso].
  assert (bpow k <= bpow (Zdigits2 m - 1)) by (apply bpow_le; lia).
  rewrite (bpow_IZR k) in H by assumption.
  apply IZR_lt in H1. lra.
Qed.

Lemma Zdigits2_ge m k :
  (2 ^ (k - 1) <= m)%Z -> (1 <= k)%Z -> (k <= Zdigits2 m)%Z.
Proof.
  intros H Hk.
  assert (0 < m)%Z by (pose proof (Z.pow_pos_nonneg 2 (k - 1)); lia).
  destruct (Zdigits2_bounds m H0) as [_ Hd].
  destruct (Z_le_gt_dec k (Zdigits2 m)) as [|Hgt]; [assumption|exfalso].
  assert (bpow (Zdigits2 m) <= bpow (k - 1)) by (apply bpow_le; lia).
  rewrite (bpow_IZR (k - 1)) in H1 by lia.
  apply IZR_le in H. lra.
Qed.

Lemma shr_fexp_small M E :
  (0 <= M < 2 ^ 53)%Z -> (-1074 <= E)%Z ->
  shr_fexp prec emax M E loc_Exact = (Build_shr_record M false false, E).
Proof.
  intros HM HE. unfold shr_fexp, shr. rewrite fexp_eq.
  pose proof (Zdigits2_le M 53 ltac:(lia) HM).
  destruct (Z.max (Zdigits2 M + E - 53) (-1074) - E)%Z eqn:En;
    try reflexivity; lia.
Qed.

Lemma shr_fexp_carry E :
  (-1074 <= E)%Z ->
  shr_fexp prec emax (2 ^ 53) E loc_Exact
  = (Build_shr_record (2 ^ 52) false false, (E + 1)%Z).
Proof.
  intros HE. unfold shr_fexp, shr. rewrite fexp_eq.
  change (Zdigits2 (2 ^ 53)) with 54%Z.
  replace (Z.max (54 + E - 53) (-1074) - E)%Z with 1%Z by lia.
  reflexivity.
Qed.

Lemma bounded_intro p E :
  (-1074 <= E <= 971)%Z -> (Zpos p < 2 ^ 53)%Z ->
  ((2 ^ 52 <= Zpos p)%Z \/ E = (-1074)%Z) ->
  bounded prec emax p E = true.
Proof.
  intros HE Hp Hn. unfold bounded, canonical_mantissa.
  rewrite fexp_eq. apply andb_true_intro; split.
  - apply Z.eqb_eq.
    pose proof (Zdigits2_le (Zpos p) 53 ltac:(lia) ltac:(lia)) as Hd.
    simpl in Hd.
    destruct Hn as [Hn|Hn].
    + pose proof (Zdigits2_ge (Zpos p) 53 Hn ltac:(lia)) as Hd'.
      simpl in Hd'. lia.
    + lia.
  - apply Z.leb_le. change (emax - prec)%Z with 971%Z. lia.
Qed.

Theorem binary_round_aux_spec s m e l x :
  (0 <= m)%Z -> inbetween x m e l ->
  (e <= fexp prec emax (Zdigits2 m + e))%Z ->
  exists M E l',
    slot x M E l' /\
    rounded s (IZR (round_nearest_even M l') * bpow E)
            (binary_round_aux prec emax s m e l).
Proof.
  intros Hm Hx He. unfold binary_round_aux.
  pose proof (shr_fexp_slot x m e l Hm Hx He) as Hs.
  destruct (shr_fexp prec emax m e l) as [mrs E].
  exists (shr_m mrs), E, (loc_of_shr_record mrs). split; [assumption|].
  destruct Hs as (HM & HE & Hn & Hin).
  set (M := shr_m mrs) in *. set (l' := loc_of_shr_record mrs) in *.
  pose proof (rne_bounds M l') as HR.
  set (M' := round_nearest_even M l') in *.
  pose proof (bpow_pos E) as PE.
  destruct (Z.eq_dec M' (2 ^ 53)) as [Hc|Hc].
  - rewrite Hc, shr_fexp_carry by assumption. cbn [shr_m].
    change (2 ^ 52)%Z with (Zpos (2 ^ 52)).
    change (emax - prec)%Z with 971%Z.
    destruct (Z.leb_spec (E + 1) 971) as [Hle|Hgt]; cbn [rounded].
    + split; [reflexivity|]. split.
      * rewrite bpow_succ. change (2 ^ 53)%Z with (2 * Zpos (2 ^ 52))%Z.
        rewrite mult_IZR. lra.
      * apply bounded_intro; [lia|reflexivity|left; lia].
    + split; [reflexivity|].
      assert (bpow 1024 <= bpow (53 + E)) by (apply bpow_le; lia).
      rewrite bpow_add, (bpow_IZR 53) in H by lia. lra.
  - rewrite shr_fexp_small by lia. cbn [shr_m].
    change (emax - prec)%Z with 971%Z.
    destruct M' as [|p|p] eqn:EM'; [| |lia].
    + cbn [rounded]. split; [reflexivity|lra].
    + destruct (Z.leb_spec E 971) as [Hle|Hgt]; cbn [rounded].
      * split; [reflexivity|]. split; [reflexivity|].
        apply bounded_intro; [lia|lia|]. destruct Hn; [left; lia|now right].
      * split; [reflexivity|].
        assert (2 ^ 52 <= Zpos p)%Z by lia.
        apply IZR_le in H. rewrite <- (bpow_IZR 52) in H by lia.
        assert (bpow 1024 <= bpow (52 + E)) by (apply bpow_le; lia).
        rewrite bpow_add in H0.
        assert (bpow 52 * bpow E <= IZR (Zpos p) * bpow E)
          by (apply Rmult_le_compat_r; lra).
        lra.
Qed.

Lemma rne_same_slot x1 x2 M E l1 l2 :
  inbetween x1 M E l1 -> inbetween x2 M E l2 -> x1 <= x2 ->
  (round_nearest_even M l1 <= round_nearest_even M l2)%Z.
Proof.
  pose proof (bpow_pos E) as PE.
  destruct l1 as [|[]], l2 as [|[]]; simpl; intros H1 H2 Hx;
    destruct (Z.even M); try lia; exfalso; lra.
Qed.

Lemma slot_monotone x1 x2 M1 E1 l1 M2 E2 l2 :
  slot x1 M1 E1 l1 -> slot x2 M2 E2 l2 -> x1 <= x2 ->
  IZR (round_nearest_even M1 l1) * bpow E1
  <= IZR (round_nearest_even M2 l2) * bpow E2.
Proof.
  intros (HM1 & HE1 & Hn1 & Hin1) (HM2 & HE2 & Hn2 & Hin2) Hx.
  pose proof (inbetween_bounds _ _ _ _ Hin1) as B1.
  pose proof (inbetween_bounds _ _ _ _ Hin2) as B2.
  pose proof (bpow_pos E1) as P1. pose proof (bpow_pos E2) as P2.
  pose proof (rne_bounds M1 l1) as R1. pose proof (rne_bounds M2 l2) as R2.
  set (r1 := round_nearest_even M1 l1) in *.
  set (r2 := round_nearest_even M2 l2) in *.
  assert (I1 : IZR r1 <= IZR M1 + 1).
  { rewrite <- (plus_IZR M1 1). apply IZR_le. lia. }
  assert (I2 : IZR M2 <= IZR r2) by (apply IZR_le; lia).
  assert (T1 : IZR M1 + 1 <= bpow 53).
  { rewrite bpow_IZR, <- (plus_IZR M1 1) by lia. apply IZR_le. lia. }
  assert (T2 : IZR M2 + 1 <= bpow 53).
  { rewrite bpow_IZR, <- (plus_IZR M2 1) by lia. apply IZR_le. lia. }
  destruct (Z.lt_trichotomy E1 E2) as [Hlt|[Heq|Hgt]].
  - (* the second number lies in a higher binade *)
    assert (2 ^ 52 <= M2)%Z by lia.
    apply IZR_le in H. rewrite <- (bpow_IZR 52) in H by lia.
    assert (bpow (53 + E1) <= bpow (52 + E2)) by (apply bpow_le; lia).
    rewrite !bpow_add in H0.
    assert (IZR r1 * bpow E1 <= bpow 53 * bpow E1)
      by (apply Rmult_le_compat_r; lra).
    assert (bpow 52 * bpow E2 <= IZR r2 * bpow E2)
      by (apply Rmult_le_compat_r; lra).
    lra.
  - subst E2.
    assert (HM : (M1 <= M2)%Z).
    { assert (IZR M1 * bpow E1 < (IZR M2 + 1) * bpow E1) by lra.
      apply Rmult_lt_reg_r in H; [|assumption].
      rewrite <- (plus_IZR M2 1) in H. apply lt_IZR in H. lia. }
    apply Rmult_le_compat_r; [lra|]. apply IZR_le.
    destruct (Z.eq_dec M1 M2) as [->|Hne].
    + unfold r1, r2. eapply rne_same_slot; eassumption.
    + lia.
  - (* impossible: the first number would lie in a higher binade *)
    exfalso.
    assert (2 ^ 52 <= M1)%Z by lia.
    apply IZR_le in H. rewrite <- (bpow_IZR 52) in H by lia.
    assert (bpow (53 + E2) <= bpow (52 + E1)) by (apply bpow_le; lia).
    rewrite !bpow_add in H0.
    assert (bpow 52 * bpow E1 <= IZR M1 * bpow E1)
      by (apply Rmult_le_compat_r; lra).
    assert ((IZR M2 + 1) * bpow E2 <= bpow 53 * bpow E2)
      by (apply Rmult_le_compat_r; lra).
    lra.
Qed.

Lemma bounded_elim p E :
  bounded prec emax p E = true ->
  (-1074 <= E <= 971)%Z /\ (Zpos p < 2 ^ 53)%Z /\
  ((2 ^ 52 <= Zpos p)%Z \/ E = (-1074)%Z).
Proof.
  unfold bounded, canonical_mantissa. rewrite fexp_eq.
  intros H. apply andb_prop in H. destruct H as [Hc Hb].
  apply Z.eqb_eq in Hc. apply Z.leb_le in Hb.
  change (emax - prec)%Z with 971%Z in Hb.
  destruct (Zdigits2_bounds (Zpos p) ltac:(lia)) as [Hl Hu].
  change (Zdigits2 (Zpos p)) with (Zpos (digits2_pos p)) in Hl, Hu.
  set (d := Zpos (digits2_pos p)) in *.
  split; [lia|]. split.
  - apply IZR_lt_bpow; [lia|].
    assert (bpow d <= bpow 53) by (apply bpow_le; lia). lra.
  - destruct (Z.eq_dec E (-1074)) as [|Hne]; [now right|left].
    assert (d = 53%Z) by lia.
    apply bpow_le_IZR; [lia|].
    replace (d - 1)%Z with 52%Z in Hl by lia. lra.
Qed.

Lemma bounded_value p E :
  bounded prec emax p E = true ->
  0 < IZR (Zpos p) * bpow E < bpow 1024 /\
  (E <> (-1074)%Z -> bpow (52 + E) <= IZR (Zpos p) * bpow E) /\
  IZR (Zpos p) * bpow E < bpow (53 + E).
Proof.
  intros H. destruct (bounded_elim p E H) as (HE & Hp & Hn).
  pose proof (bpow_pos E) as PE.
  assert (0 < IZR (Zpos p)) by (apply IZR_lt; lia).
  assert (IZR (Zpos p) < bpow 53).
  { rewrite bpow_IZR by lia. now apply IZR_lt. }
  assert (bpow (53 + E) <= bpow 1024) by (apply bpow_le; lia).
  rewrite !bpow_add in *.
  assert (IZR (Zpos p) * bpow E < bpow 53 * bpow E)
    by (apply Rmult_lt_compat_r; lra).
  repeat split; try nra.
  intros Hne. destruct Hn as [Hn|Hn]; [|contradiction].
  apply IZR_le in Hn. rewrite <- (bpow_IZR 52) in Hn by lia.
  apply Rmult_le_compat_r; lra.
Qed.

(** Canonical numbers of one sign compare as their values do. *)
Lemma finite_compare_le p1 E1 p2 E2 :
  bounded prec emax p1 E1 = true -> bounded prec emax p2 E2 = true ->
  IZR (Zpos p1) * bpow E1 <= IZR (Zpos p2) * bpow E2 ->
  (E1 < E2)%Z \/ (E1 = E2 /\ (p1 <= p2)%positive).
Proof.
  intros H1 H2 HV.
  destruct (bounded_value p1 E1 H1) as (V1 & N1 & U1).
  destruct (bounded_value p2 E2 H2) as (V2 & N2 & U2).
  destruct (bounded_elim p1 E1 H1) as (HE1 & _).
  destruct (bounded_elim p2 E2 H2) as (HE2 & _).
  destruct (Z.lt_trichotomy E1 E2) as [Hlt|[Heq|Hgt]]; [now left| |exfalso].
  - right. split; [assumption|]. subst E2.
    pose proof (bpow_pos E1).
    apply Rmult_le_reg_r in HV; [|assumption].
    apply le_IZR in HV. lia.
  - assert (bpow (53 + E2) <= bpow (52 + E1)) by (apply bpow_le; lia).
    specialize (N1 ltac:(lia)). lra.
Qed.

Lemma finite_compare_ge p1 E1 p2 E2 :
  bounded prec emax p1 E1 = true -> bounded prec emax p2 E2 = true ->
  (E1 < E2)%Z \/ (E1 = E2 /\ (p1 <= p2)%positive) ->
  IZR (Zpos p1) * bpow E1 <= IZR (Zpos p2) * bpow E2.
Proof.
  intros H1 H2 [Hlt|[-> Hle]].
  - destruct (bounded_value p1 E1 H1) as (V1 & N1 & U1).
    destruct (bounded_value p2 E2 H2) as (V2 & N2 & U2).
    destruct (bounded_elim p1 E1 H1) as (HE1 & _).
    assert (bpow (53 + E1) <= bpow (52 + E2)) by (apply bpow_le; lia).
    specialize (N2 ltac:(lia)). lra.
  - pose proof (bpow_pos E2).
    apply Rmult_le_compat_r; [lra|]. apply IZR_le. lia.
Qed.

Lemma rounded_sign s V z :
  rounded s V z -> (if s then nonpos else nonneg) z.
Proof.
  destruct z as [s'|s'| |s' p E]; simpl; try tauto;
    intros [-> _]; now destruct s.
Qed.

Lemma nonpos_nonneg_le a b : nonpos a -> nonneg b -> SFleb a b = true.
Proof.
  destruct a as [[]|[]| |[] ? ?], b as [[]|[]| |[] ? ?]; simpl; tauto.
Qed.

Lemma neg_infinity_le z :
  nonneg z \/ nonpos z -> SFleb (S754_infinity true) z = true.
Proof. destruct z as [[]|[]| |[] ? ?]; simpl; tauto. Qed.

Lemma le_infinity z :
  nonneg z \/ nonpos z -> SFleb z (S754_infinity false) = true.
Proof. destruct z as [[]|[]| |[] ? ?]; simpl; tauto. Qed.

Ltac lex_cases :=
  split; intros H; try reflexivity; try discriminate H;
  try (left; lia); try (right; split; [reflexivity|lia]);
  try (destruct H as [?|[? ?]]; lia).

Lemma finite_leb_pos p1 E1 p2 E2 :
  SFleb (S754_finite false p1 E1) (S754_finite false p2 E2) = true <->
  (E1 < E2)%Z \/ (E1 = E2 /\ (p1 <= p2)%positive).
Proof.
  unfold SFleb, SFcompare.
  change (Pos.compare_cont Eq p1 p2) with (Pos.compare p1 p2).
  destruct (Z.compare_spec E1 E2) as [->|Hlt|Hgt];
    [destruct (Pos.compare_spec p1 p2) as [->|Hl|Hg]| |]; lex_cases.
Qed.

Lemma finite_leb_neg p1 E1 p2 E2 :
  SFleb (S754_finite true p1 E1) (S754_finite true p2 E2) = true <->
  (E2 < E1)%Z \/ (E2 = E1 /\ (p2 <= p1)%positive).
Proof.
  unfold SFleb, SFcompare.
  change (Pos.compare_cont Eq p1 p2) with (Pos.compare p1 p2).
  destruct (Z.compare_spec E1 E2) as [->|Hlt|Hgt];
    [destruct (Pos.compare_spec p1 p2) as [->|Hl|Hg]| |];
    cbn [CompOpp]; lex_cases.
Qed.

Lemma rounded_le s V1 V2 z1 z2 :
  rounded s V1 z1 -> rounded s V2 z2 -> V1 <= V2 ->
  SFleb (if s then z2 else z1) (if s then z1 else z2) = true.
Proof.
  intros H1 H2 HV.
  destruct z1 as [s1|s1| |s1 p1 E1]; try contradiction;
    destruct z2 as [s2|s2| |s2 p2 E2]; try contradiction;
    simpl in H1, H2;
    repeat match goal with
           | H : _ /\ _ |- _ => destruct H
           end; subst.
  - now destruct s.
  - now destruct s.
  - now destruct s.
  - exfalso. pose proof (bpow_pos 1024). lra.
  - now destruct s.
  - exfalso. destruct (bounded_value p2 E2 ltac:(eassumption)) as ((? & ?) & _).
    lra.
  - exfalso. destruct (bounded_value p1 E1 ltac:(eassumption)) as ((? & ?) & _).
    lra.
  - now destruct s.
  - pose proof (finite_compare_le p1 E1 p2 E2 ltac:(eassumption)
                  ltac:(eassumption) HV).
    destruct s; [now apply finite_leb_neg|now apply finite_leb_pos].
Qed.

(** Operations that act on the magnitude by a monotone function [phi],
    keep the sign, and round: they are monotone for [SFleb]. *)
Section Monotone.

Variable op : spec_float -> spec_float.
Variable phi : R -> R.

Hypothesis phi_mono : forall a b, 0 < a -> a <= b -> phi a <= phi b.
Hypothesis op_zero : forall s, op (S754_zero s) = S754_zero s.
Hypothesis op_infinity : forall s, op (S754_infinity s) = S754_infinity s.
Hypothesis op_finite : forall s p E,
  bounded prec emax p E = true ->
  exists m e l,
    op (S754_finite s p E) = binary_round_aux prec emax s m e l /\
    (0 <= m)%Z /\ inbetween (phi (IZR (Zpos p) * bpow E)) m e l /\
    (e <= fexp prec emax (Zdigits2 m + e))%Z.

Lemma op_finite_rounded s p E :
  bounded prec emax p E = true ->
  exists M E' l,
    slot (phi (IZR (Zpos p) * bpow E)) M E' l /\
    rounded s (IZR (round_nearest_even M l) * bpow E')
            (op (S754_finite s p E)).
Proof.
  intros Hb. destruct (op_finite s p E Hb) as (m & e & l & -> & Hm & Hin & He).
  now apply binary_round_aux_spec.
Qed.

Lemma op_finite_sign (s : bool) p E :
  bounded prec emax p E = true ->
  (if s then nonpos else nonneg) (op (S754_finite s p E)).
Proof.
  intros Hb. destruct (op_finite_rounded s p E Hb) as (M & E' & l & _ & Hr).
  eapply rounded_sign, Hr.
Qed.

Lemma op_finite_monotone (s : bool) p1 E1 p2 E2 :
  bounded prec emax p1 E1 = true -> bounded prec emax p2 E2 = true ->
  IZR (Zpos p1) * bpow E1 <= IZR (Zpos p2) * bpow E2 ->
  SFleb (if s then op (S754_finite s p2 E2) else op (S754_finite s p1 E1))
        (if s then op (S754_finite s p1 E1) else op (S754_finite s p2 E2))
  = true.
Proof.
  intros H1 H2 HV.
  destruct (op_finite_rounded s p1 E1 H1) as (M1 & F1 & l1 & S1 & R1).
  destruct (op_finite_rounded s p2 E2 H2) as (M2 & F2 & l2 & S2 & R2).
  eapply rounded_le; [exact R1|exact R2|].
  eapply slot_monotone; [exact S1|exact S2|].
  apply phi_mono; [|assumption].
  now destruct (bounded_value p1 E1 H1) as ((? & _) & _).
Qed.

Theorem op_monotone x1 x2 :
  valid_binary x1 = true -> valid_binary x2 = true ->
  SFleb x1 x2 = true -> SFleb (op x1) (op x2) = true.
Proof.
  intros V1 V2 H.
  destruct x1 as [s1|s1| |s1 p1 E1], x2 as [s2|s2| |s2 p2 E2];
    try discriminate H;
    rewrite ?op_zero, ?op_infinity.
  - reflexivity.
  - exact H.
  - destruct s2; [destruct s1; discriminate H|].
    apply nonpos_nonneg_le; [exact I|].
    exact (op_finite_sign false p2 E2 V2).
  - exact H.
  - exact H.
  - destruct s1; [|destruct s2; discriminate H].
    apply neg_infinity_le.
    pose proof (op_finite_sign s2 p2 E2 V2). destruct s2; tauto.
  - destruct s1; [|discriminate H].
    apply nonpos_nonneg_le; [|exact I].
    exact (op_finite_sign true p1 E1 V1).
  - destruct s2; [destruct s1; discriminate H|].
    apply le_infinity.
    pose proof (op_finite_sign s1 p1 E1 V1). destruct s1; tauto.
  - destruct s1, s2; try discriminate H.
    + apply (op_finite_monotone true p2 E2 p1 E1 V2 V1).
      apply finite_compare_ge; try assumption. now apply finite_leb_neg.
    + apply nonpos_nonneg_le.
      * exact (op_finite_sign true p1 E1 V1).
      * exact (op_finite_sign false p2 E2 V2).
    + apply (op_finite_monotone false p1 E1 p2 E2 V1 V2).
      apply finite_compare_ge; try assumption. now apply finite_leb_pos.
Qed.

End Monotone.

(* Multiplication by a positive normal number *)

Lemma xorb_false_r' s : xorb s false = s.
Proof. now destruct s. Qed.

Lemma fexp_ge_digits m e :
  (2 ^ 52 <= m)%Z -> (e <= fexp prec emax (Zdigits2 m + e))%Z.
Proof.
  intros H. rewrite fexp_eq.
  pose proof (Zdigits2_ge m 53 H ltac:(lia)). lia.
Qed.

Section MulBy.

Variable py : positive.
Variable Ey : Z.
Hypothesis y_bounded : bounded prec emax py Ey = true.
Hypothesis y_normal : (2 ^ 52 <= Zpos py)%Z.

Let y := S754_finite false py Ey.
Let Vy := IZR (Zpos py) * bpow Ey.

Lemma SFmul_monotone x1 x2 :
  valid_binary x1 = true -> valid_binary x2 = true ->
  SFleb x1 x2 = true ->
  SFleb (SFmul prec emax x1 y) (SFmul prec emax x2 y) = true.
Proof.
  apply (op_monotone (fun x => SFmul prec emax x y) (fun v => v * Vy)).
  - intros a b Ha Hab.
    destruct (bounded_value py Ey y_bounded) as ((? & _) & _).
    apply Rmult_le_compat_r; [fold Vy in H|]; lra.
  - intros s. simpl. now rewrite xorb_false_r'.
  - intros s. simpl. now rewrite xorb_false_r'.
  - intros s p E Hb.
    exists (Zpos (p * py)), (E + Ey)%Z, loc_Exact.
    simpl SFmul. rewrite xorb_false_r'.
    split; [reflexivity|]. split; [lia|]. split.
    + simpl. unfold Vy. rewrite Pos2Z.inj_mul, mult_IZR, bpow_add. ring.
    + apply fexp_ge_digits. rewrite Pos2Z.inj_mul. nia.
Qed.

End MulBy.

(* Division by a positive number *)

Lemma new_location_inbetween (q r y : Z) (b : R) (e : Z) :
  (0 < y)%Z -> (0 <= r < y)%Z -> b = bpow e ->
  inbetween ((IZR q + IZR r / IZR y) * b) q e (new_location y r).
Proof.
  intros Hy Hr ->. pose proof (bpow_pos e) as Pb.
  assert (Py : 0 < IZR y) by (apply IZR_lt; lia).
  set (t := IZR r / IZR y).
  assert (Ht : t * IZR y = IZR r) by (unfold t; field; lra).
  assert (Zero : r = 0%Z ->
            inbetween ((IZR q + t) * bpow e) q e loc_Exact).
  { intros ->. replace t with 0 by (unfold t; field; lra). simpl. ring. }
  assert (Half : (0 < r)%Z -> forall c, Z.compare (2 * r) y = c ->
            inbetween ((IZR q + t) * bpow e) q e (loc_Inexact c)).
  { intros Hr0 c Hc.
    assert (Pr : 0 < IZR r) by (apply IZR_lt; lia).
    assert (Ry : IZR r < IZR y) by (apply IZR_lt; lia).
    assert (T0 : 0 < t) by (unfold t; apply Rdiv_lt_0_compat; lra).
    assert (T1 : t < 1).
    { apply Rmult_lt_reg_r with (IZR y); [assumption|]. lra. }
    simpl. split; [nra|].
    destruct (Z.compare_spec (2 * r) y) as [E|E|E]; subst c.
    - apply (f_equal IZR) in E. rewrite mult_IZR in E.
      assert (t = / 2) by (apply Rmult_eq_reg_r with (IZR y); lra).
      subst t. rewrite H. ring.
    - apply IZR_lt in E. rewrite mult_IZR in E.
      assert (t < / 2) by (apply Rmult_lt_reg_r with (IZR y); lra).
      nra.
    - apply IZR_lt in E. rewrite mult_IZR in E.
      assert (/ 2 < t) by (apply Rmult_lt_reg_r with (IZR y); lra).
      nra. }
  unfold new_location.
  destruct (Z.even y) eqn:Ev;
    unfold new_location_even, new_location_odd;
    destruct (Z.eqb_spec r 0) as [E0|E0]; try (now apply Zero).
  - apply Half; [lia|reflexivity].
  - assert (Hodd : (2 * r <> y)%Z).
    { intros E. rewrite <- E, Z.even_mul in Ev. discriminate Ev. }
    destruct (Z.compare_spec (2 * r + 1) y) as [E|E|E];
      apply Half; try lia.
    + apply Z.compare_lt_iff; lia.
    + apply Z.compare_lt_iff; lia.
    + apply Z.compare_gt_iff; lia.
Qed.

Lemma Zdigits2_pos_le53 p E :
  bounded prec emax p E = true -> (Zdigits2 (Zpos p) <= 53)%Z.
Proof.
  intros H. destruct (bounded_elim p E H) as (_ & Hp & _).
  apply Zdigits2_le; lia.
Qed.

Lemma SFdiv_core_spec p E py Ey :
  bounded prec emax p E = true -> bounded prec emax py Ey = true ->
  let '(q, e', l) := SFdiv_core_binary prec emax (Zpos p) E (Zpos py) Ey in
  (0 <= q)%Z /\
  inbetween (IZR (Zpos p) * bpow E / (IZR (Zpos py) * bpow Ey)) q e' l /\
  (e' <= fexp prec emax (Zdigits2 q + e'))%Z.
Proof.
  intros Hx Hy. unfold SFdiv_core_binary.
  pose proof (Zdigits2_pos_le53 p E Hx) as Hd1.
  destruct (Zdigits2_bounds (Zpos p) ltac:(lia)) as [Lp Up].
  destruct (Zdigits2_bounds (Zpos py) ltac:(lia)) as [Ly Uy].
  assert (Hd2 : (1 <= Zdigits2 (Zpos py))%Z) by (simpl; lia).
  set (d1 := Zdigits2 (Zpos p)) in *. set (d2 := Zdigits2 (Zpos py)) in *.
  rewrite fexp_eq.
  set (e' := Z.min (Z.max (d1 + E - (d2 + Ey) - 53) (-1074)) (E - Ey)).
  set (s := (E - Ey - e')%Z).
  assert (Hs : (0 <= s)%Z) by (unfold s, e'; lia).
  set (m' := match s with
             | 0%Z => Zpos p
             | Zpos _ => Z.shiftl (Zpos p) s
             | Zneg _ => 0%Z
             end).
  assert (Hm' : m' = (Zpos p * 2 ^ s)%Z).
  { unfold m'. destruct s as [|k|k] eqn:Es; [lia| |lia].
    apply Z.shiftl_mul_pow2. lia. }
  clearbody m'.
  pose proof (Z_div_mod m' (Zpos py) ltac:(lia)) as Hdiv.
  destruct (Z.div_eucl m' (Zpos py)) as [q r].
  destruct Hdiv as [Hqr Hr].
  assert (Py : 0 < IZR (Zpos py)) by (apply IZR_lt; lia).
  assert (Pp : 0 < IZR (Zpos p)) by (apply IZR_lt; lia).
  pose proof (bpow_pos Ey) as PEy. pose proof (bpow_pos e') as Pe'.
  pose proof (bpow_pos s) as Ps.
  assert (Hq : IZR (Zpos p) * bpow s = IZR (Zpos py) * IZR q + IZR r).
  { rewrite bpow_IZR, <- mult_IZR, <- Hm', Hqr by assumption.
    now rewrite plus_IZR, mult_IZR. }
  assert (Hq0 : (0 <= q)%Z).
  { assert (0 <= m')%Z by (rewrite Hm'; pose proof (Z.pow_pos_nonneg 2 s); nia).
    nia. }
  split; [assumption|]. split.
  - replace (IZR (Zpos p) * bpow E / (IZR (Zpos py) * bpow Ey))
      with ((IZR q + IZR r / IZR (Zpos py)) * bpow e').
    + apply new_location_inbetween; [lia|assumption|reflexivity].
    + replace (bpow E) with (bpow s * bpow e' * bpow Ey)
        by (rewrite <- !bpow_add; f_equal; unfold s; lia).
      transitivity ((IZR (Zpos py) * IZR q + IZR r) / IZR (Zpos py) * bpow e').
      * field; lra.
      * rewrite <- Hq. field; lra.
  - rewrite fexp_eq.
    destruct (Z.eq_dec e' (d1 + E - (d2 + Ey) - 53)) as [He'|He']; [|lia].
    destruct (Z_le_gt_dec e' (-1074)) as [|Hgt]; [lia|].
    (* the quotient has at least [prec] digits *)
    assert (Hs' : s = (53 - d1 + d2)%Z) by (unfold s; lia).
    assert (H52 : (2 ^ 52 <= q)%Z).
    { apply bpow_le_IZR; [lia|].
      assert (bpow (d1 - 1) * bpow s = bpow 52 * bpow d2).
      { rewrite <- !bpow_add. f_equal. lia. }
      assert (bpow (d1 - 1) * bpow s <= IZR (Zpos p) * bpow s)
        by (apply Rmult_le_compat_r; lra).
      assert (IZR r < IZR (Zpos py)) by (apply IZR_lt; lia).
      pose proof (bpow_pos 52).
      assert (bpow 52 * IZR (Zpos py) < bpow 52 * bpow d2)
        by (apply Rmult_lt_compat_l; lra).
      assert (bpow 52 * IZR (Zpos py) < IZR (Zpos py) * (IZR q + 1)) by lra.
      apply Rmult_lt_reg_l with (IZR (Zpos py)); lra. }
    pose proof (Zdigits2_ge q 53 H52 ltac:(lia)). lia.
Qed.

Section DivBy.

Variable py : positive.
Variable Ey : Z.
Hypothesis y_bounded : bounded prec emax py Ey = true.

Let y := S754_finite false py Ey.
Let Vy := IZR (Zpos py) * bpow Ey.

Lemma SFdiv_monotone x1 x2 :
  valid_binary x1 = true -> valid_binary x2 = true ->
  SFleb x1 x2 = true ->
  SFleb (SFdiv prec emax x1 y) (SFdiv prec emax x2 y) = true.
Proof.
  apply (op_monotone (fun x => SFdiv prec emax x y) (fun v => v / Vy)).
  - intros a b Ha Hab.
    destruct (bounded_value py Ey y_bounded) as ((? & _) & _).
    fold Vy in H. unfold Rdiv. apply Rmult_le_compat_r; [|lra].
    left. now apply Rinv_0_lt_compat.
  - intros s. simpl. now rewrite xorb_false_r'.
  - intros s. simpl. now rewrite xorb_false_r'.
  - intros s p E Hb.
    pose proof (SFdiv_core_spec p E py Ey Hb y_bounded) as H.
    unfold y. cbn [SFdiv].
    destruct (SFdiv_core_binary prec emax (Zpos p) E (Zpos py) Ey)
      as [[q e'] l].
    exists q, e', l. rewrite xorb_false_r'.
    split; [reflexivity|exact H].
Qed.

End DivBy.

(* Conversion of integers *)

Lemma iter_xO_value p d :
  Zpos (Pos.iter xO p d) = (Zpos p * 2 ^ Zpos d)%Z.
Proof.
  induction d as [|d IH] using Pos.peano_ind.
  - simpl. lia.
  - rewrite Pos.iter_succ, Pos2Z.inj_succ, Z.pow_succ_r by lia.
    change (Zpos (Pos.iter xO p d)~0) with (2 * Zpos (Pos.iter xO p d))%Z.
    rewrite IH. ring.
Qed.

Lemma binary_round_spec s p e :
  exists M E l,
    slot (IZR (Zpos p) * bpow e) M E l /\
    rounded s (IZR (round_nearest_even M l) * bpow E)
            (binary_round prec emax s p e).
Proof.
  unfold binary_round, shl_align. rewrite fexp_eq.
  destruct (Zdigits2_bounds (Zpos p) ltac:(lia)) as [Lp Up].
  change (Zdigits2 (Zpos p)) with (Zpos (digits2_pos p)) in Lp, Up.
  set (dp := Zpos (digits2_pos p)) in *.
  set (e' := Z.max (dp + e - 53) (-1074)).
  destruct (e' - e)%Z as [|d|d] eqn:Ed.
  - apply binary_round_aux_spec; [lia|reflexivity|].
    rewrite fexp_eq. change (Zdigits2 (Zpos p)) with dp. lia.
  - apply binary_round_aux_spec; [lia|reflexivity|].
    rewrite fexp_eq. change (Zdigits2 (Zpos p)) with dp. lia.
  - apply binary_round_aux_spec; [lia| |].
    + simpl. rewrite iter_xO_value, mult_IZR, <- bpow_IZR by lia.
      replace (bpow e) with (bpow (Zpos d) * bpow e').
      * ring.
      * rewrite <- bpow_add. f_equal. lia.
    + destruct (Z.eq_dec e' (-1074)) as [Hb|Hb];
        [rewrite fexp_eq; lia|].
      apply fexp_ge_digits. rewrite iter_xO_value.
      apply bpow_le_IZR; [lia|].
      rewrite mult_IZR, <- (bpow_IZR (Zpos d)) by lia.
      assert (bpow 52 = bpow (dp - 1) * bpow (Zpos d)).
      { rewrite <- bpow_add. f_equal. lia. }
      pose proof (bpow_pos (Zpos d)).
      assert (bpow (dp - 1) * bpow (Zpos d)
              <= IZR (Zpos p) * bpow (Zpos d))
        by (apply Rmult_le_compat_r; lra).
      lra.
Qed.

Lemma binary_normalize_monotone k1 k2 :
  (0 <= k1 <= k2)%Z ->
  SFleb (binary_normalize prec emax k1 0 false)
        (binary_normalize prec emax k2 0 false) = true.
Proof.
  intros [H1 H2].
  destruct k1 as [|p1|p1]; [| |lia]; (destruct k2 as [|p2|p2]; [| |lia]);
    unfold binary_normalize.
  - reflexivity.
  - destruct (binary_round_spec false p2 0) as (M & E & l & _ & Hr).
    apply nonpos_nonneg_le; [exact I|].
    exact (rounded_sign false _ _ Hr).
  - lia.
  - destruct (binary_round_spec false p1 0) as (M1 & E1 & l1 & S1 & R1).
    destruct (binary_round_spec false p2 0) as (M2 & E2 & l2 & S2 & R2).
    apply (rounded_le false _ _ _ _ R1 R2).
    eapply slot_monotone; [exact S1|exact S2|].
    apply Rmult_le_compat_r; [pose proof (bpow_pos 0); lra|].
    apply IZR_le. lia.
Qed.

Lemma binary_normalize_finite k :
  (1 <= k <= 2 ^ 53)%Z ->
  exists p E,
    binary_normalize prec emax k 0 false = S754_finite false p E /\
    bounded prec emax p E = true.
Proof.
  intros Hk. destruct k as [|p|p]; try lia. unfold binary_normalize.
  destruct (binary_round_spec false p 0) as (M & E & l & Sl & Hr).
  destruct Sl as (HM & HE & Hn & Hin).
  pose proof (inbetween_bounds _ _ _ _ Hin) as B.
  pose proof (rne_bounds M l) as HR.
  set (r := round_nearest_even M l) in *.
  pose proof (bpow_pos E) as PE.
  assert (X1 : 1 <= IZR (Zpos p) * bpow 0).
  { change (bpow 0) with 1. rewrite Rmult_1_r. apply IZR_le. lia. }
  assert (X2 : IZR (Zpos p) * bpow 0 <= bpow 53).
  { change (bpow 0) with 1. rewrite Rmult_1_r, bpow_IZR by lia.
    apply IZR_le. lia. }
  assert (HM1 : (1 <= M)%Z).
  { destruct (Z.eq_dec M 0) as [->|]; [exfalso|lia].
    assert (E = (-1074)%Z) by lia. subst E.
    assert (bpow (-1074) <= bpow 0) by (apply bpow_le; lia).
    change (bpow 0) with 1 in *. simpl in B. lra. }
  assert (IM : 1 <= IZR M) by (apply IZR_le; lia).
  assert (Ir : IZR M <= IZR r <= IZR M + 1).
  { rewrite <- (plus_IZR M 1). split; apply IZR_le; lia. }
  assert (V0 : 0 < IZR r * bpow E) by nra.
  assert (V1 : IZR r * bpow E < bpow 1024).
  { assert (bpow 54 < bpow 1024) by (apply bpow_lt; lia).
    assert (bpow 54 = 2 * bpow 53) by (rewrite <- bpow_succ; f_equal).
    nra. }
  destruct (binary_round prec emax false p 0) as [s'|s'| |s' p' E'];
    cbn [rounded] in Hr.
  - destruct Hr as [_ Hr]. lra.
  - destruct Hr as [_ Hr]. lra.
  - contradiction.
  - destruct Hr as (-> & _ & Hb). now exists p', E'.
Qed.

(* Order *)

Lemma SFcompare_rank :
  forall x y z,
    SFleb x y = true -> SFltb y z = true -> SFltb x z = true.
Proof.
  intros x y z.
  destruct x as [[]|[]| |[] p1 E1], y as [[]|[]| |[] p2 E2],
    z as [[]|[]| |[] p3 E3];
    unfold SFleb, SFltb, SFcompare;
    try reflexivity; try discriminate;
    change (Pos.compare_cont Eq) with Pos.compare;
    repeat match goal with
           | |- context [Z.compare ?a ?b] =>
               destruct (Z.compare_spec a b); subst
           | |- context [Pos.compare ?a ?b] =>
               destruct (Pos.compare_spec a b); subst
           end; simpl; try reflexivity; try discriminate; try lia.
Qed.

Lemma SFltb_leb_trans :
  forall x y z,
    SFltb x y = true -> SFleb y z = true -> SFltb x z = true.
Proof.
  intros x y z.
  destruct x as [[]|[]| |[] p1 E1], y as [[]|[]| |[] p2 E2],
    z as [[]|[]| |[] p3 E3];
    unfold SFleb, SFltb, SFcompare;
    try reflexivity; try discriminate;
    change (Pos.compare_cont Eq) with Pos.compare;
    repeat match goal with
           | |- context [Z.compare ?a ?b] =>
               destruct (Z.compare_spec a b); subst
           | |- context [Pos.compare ?a ?b] =>
               destruct (Pos.compare_spec a b); subst
           end; simpl; try reflexivity; try discriminate; try lia.
Qed.

(* Exact results *)

Lemma rounded_unique s V z1 z2 :
  rounded s V z1 -> rounded s V z2 -> z1 = z2.
Proof.
  intros H1 H2.
  destruct z1 as [s1|s1| |s1 p1 E1]; try contradiction;
    destruct z2 as [s2|s2| |s2 p2 E2]; try contradiction;
    cbn [rounded] in H1, H2.
  - destruct H1 as [-> _], H2 as [-> _]. reflexivity.
  - exfalso. destruct H1 as [_ H1], H2 as [_ H2].
    pose proof (bpow_pos 1024). lra.
  - exfalso. destruct H1 as [_ H1], H2 as (_ & H2 & Hb).
    destruct (bounded_value p2 E2 Hb) as ((? & ?) & _). lra.
  - exfalso. destruct H1 as [_ H1], H2 as [_ H2].
    pose proof (bpow_pos 1024). lra.
  - destruct H1 as [-> _], H2 as [-> _]. reflexivity.
  - exfalso. destruct H1 as [_ H1], H2 as (_ & H2 & Hb).
    destruct (bounded_value p2 E2 Hb) as ((? & ?) & _). lra.
  - exfalso. destruct H2 as [_ H2], H1 as (_ & H1 & Hb).
    destruct (bounded_value p1 E1 Hb) as ((? & ?) & _). lra.
  - exfalso. destruct H2 as [_ H2], H1 as (_ & H1 & Hb).
    destruct (bounded_value p1 E1 Hb) as ((? & ?) & _). lra.
  - destruct H1 as (-> & H1 & Hb1), H2 as (-> & H2 & Hb2).
    destruct (finite_compare_le p1 E1 p2 E2 Hb1 Hb2 ltac:(lra))
      as [Hlt|[HE Hp]];
      destruct (finite_compare_le p2 E2 p1 E1 Hb2 Hb1 ltac:(lra))
        as [Hlt'|[HE' Hp']]; try lia.
    subst E2. f_equal. lia.
Qed.

(** Rounding a number the format holds gives that number. *)
Lemma slot_exact x M E l K F :
  slot x M E l -> x = IZR K * bpow F -> (E <= F)%Z ->
  IZR (round_nearest_even M l) * bpow E = x.
Proof.
  intros (HM & HE & Hn & Hin) Hx HF.
  pose proof (bpow_pos E) as PE.
  assert (Hx' : x = IZR (K * 2 ^ (F - E)) * bpow E).
  { rewrite Hx, mult_IZR, <- bpow_IZR by lia.
    rewrite Rmult_assoc, <- bpow_add. do 2 f_equal. lia. }
  set (K' := (K * 2 ^ (F - E))%Z) in *.
  pose proof (inbetween_bounds _ _ _ _ Hin) as B.
  assert (K' = M).
  { rewrite Hx' in B. destruct B as [B1 B2].
    apply Rmult_le_reg_r in B1; [|assumption].
    apply Rmult_lt_reg_r in B2; [|assumption].
    apply le_IZR in B1. rewrite <- (plus_IZR M 1) in B2.
    apply lt_IZR in B2. lia. }
  subst M.
  destruct l as [|c]; [simpl; lra|].
  exfalso. simpl in Hin. lra.
Qed.

Lemma binary_normalize_spec k e :
  (0 < k)%Z ->
  exists M E l,
    slot (IZR k * bpow e) M E l /\
    rounded false (IZR (round_nearest_even M l) * bpow E)
            (binary_normalize prec emax k e false).
Proof.
  intros Hk. destruct k as [|p|p]; try lia. apply binary_round_spec.
Qed.

(** Two ways to write one number normalize to the same float. *)
Lemma binary_normalize_same k1 e1 k2 e2 :
  (0 < k1)%Z -> (0 < k2)%Z ->
  IZR k1 * bpow e1 = IZR k2 * bpow e2 ->
  binary_normalize prec emax k1 e1 false
  = binary_normalize prec emax k2 e2 false.
Proof.
  intros H1 H2 HV.
  destruct (binary_normalize_spec k1 e1 H1) as (M1 & E1 & l1 & S1 & R1).
  destruct (binary_normalize_spec k2 e2 H2) as (M2 & E2 & l2 & S2 & R2).
  assert (IZR (round_nearest_even M1 l1) * bpow E1
          = IZR (round_nearest_even M2 l2) * bpow E2).
  { apply Rle_antisym; eapply slot_monotone; eauto; lra. }
  rewrite H in R1. exact (rounded_unique _ _ _ _ R1 R2).
Qed.

(* Addition of positive numbers *)

Lemma shl_align_value m e e' :
  (e' <= e)%Z ->
  IZR (Zpos (fst (shl_align m e e'))) * bpow e' = IZR (Zpos m) * bpow e.
Proof.
  intros He. unfold shl_align.
  destruct (e' - e)%Z as [|d|d] eqn:Ed; cbn [fst].
  - replace e' with e by lia. reflexivity.
  - lia.
  - rewrite iter_xO_value, mult_IZR, <- bpow_IZR by lia.
    rewrite Rmult_assoc, <- bpow_add. do 2 f_equal. lia.
Qed.

Lemma SFadd_positive mx ex my ey :
  exists k e,
    SFadd prec emax (S754_finite false mx ex) (S754_finite false my ey)
    = binary_normalize prec emax k e false /\
    (0 < k)%Z /\
    IZR k * bpow e = IZR (Zpos mx) * bpow ex + IZR (Zpos my) * bpow ey.
Proof.
  cbn [SFadd cond_Zopp].
  set (ez := Z.min ex ey).
  exists (Zpos (fst (shl_align mx ex ez)) + Zpos (fst (shl_align my ey ez)))%Z,
    ez.
  split; [reflexivity|]. split; [lia|].
  rewrite plus_IZR, Rmult_plus_distr_r.
  rewrite !shl_align_value by (unfold ez; lia). reflexivity.
Qed.

(** The integers up to [2^53] are floats. *)
Lemma binary_normalize_integer n :
  (1 <= n <= 2 ^ 53)%Z ->
  exists p E,
    binary_normalize prec emax n 0 false = S754_finite false p E /\
    bounded prec emax p E = true /\
    IZR (Zpos p) * bpow E = IZR n.
Proof.
  intros Hn.
  destruct (binary_normalize_finite n Hn) as (p & E & Hp & Hb).
  exists p, E. split; [assumption|]. split; [assumption|].
  destruct (binary_normalize_spec n 0 ltac:(lia)) as (M & F & l & Sl & Hr).
  rewrite Hp in Hr. cbn [rounded] in Hr. destruct Hr as (_ & Hr & _).
  rewrite <- Hr.
  change (bpow 0) with 1 in Sl. rewrite Rmult_1_r in Sl.
  destruct (Z.eq_dec n (2 ^ 53)) as [->|Hne].
  - apply (slot_exact _ M F l (2 ^ 52) 1 Sl).
    + replace (bpow 1) with 2 by (unfold bpow; simpl; lra). change (2 ^ 53)%Z with (2 ^ 52 * 2)%Z.
      rewrite mult_IZR. reflexivity.
    + destruct Sl as (HM & HF & Hnm & Hin).
      pose proof (inbetween_bounds _ _ _ _ Hin) as B.
      destruct (Z_le_gt_dec F 1) as [|Hgt]; [assumption|exfalso].
      assert (2 ^ 52 <= M)%Z by lia.
      apply IZR_le in H. rewrite <- (bpow_IZR 52) in H by lia.
      assert (bpow 2 <= bpow F) by (apply bpow_le; lia).
      assert (bpow 52 * bpow 2 = IZR (2 ^ 54)).
      { rewrite <- bpow_add, bpow_IZR by lia. reflexivity. }
      assert (IZR (2 ^ 53) < IZR (2 ^ 54)) by (apply IZR_lt; lia).
      pose proof (bpow_pos F). pose proof (bpow_pos 52).
      pose proof (bpow_pos 2).
      assert (bpow 52 * bpow 2 <= IZR M * bpow F) by
        (apply Rmult_le_compat; lra).
      lra.
  - apply (slot_exact _ M F l n 0 Sl).
    + change (bpow 0) with 1. lra.
    + destruct Sl as (HM & HF & Hnm & Hin).
      pose proof (inbetween_bounds _ _ _ _ Hin) as B.
      destruct (Z_le_gt_dec F 0) as [|Hgt]; [assumption|exfalso].
      assert (2 ^ 52 <= M)%Z by lia.
      apply IZR_le in H. rewrite <- (bpow_IZR 52) in H by lia.
      assert (bpow 1 <= bpow F) by (apply bpow_le; lia).
      assert (bpow 52 * bpow 1 = IZR (2 ^ 53)).
      { rewrite <- bpow_add, bpow_IZR by lia. reflexivity. }
      assert (IZR n < IZR (2 ^ 53)) by (apply IZR_lt; lia).
      pose proof (bpow_pos F). pose proof (bpow_pos 52).
      pose proof (bpow_pos 1).
      assert (bpow 52 * bpow 1 <= IZR M * bpow F) by
        (apply Rmult_le_compat; lra).
      lra.
Qed.

(* Primitive floats *)

Local Close Scope R_scope.
Local Open Scope float_scope.

Lemma leb_ltb_trans (x y z : float) :
  (x <=? y) = true -> (y <? z) = true -> (x <? z) = true.
Proof. rewrite leb_spec, !ltb_spec. apply SFcompare_rank. Qed.

Lemma ltb_leb_trans (x y z : float) :
  (x <? y) = true -> (y <=? z) = true -> (x <? z) = true.
Proof. rewrite leb_spec, !ltb_spec. apply SFltb_leb_trans. Qed.

Lemma mul_monotone (k t1 t2 : float) pk Ek :
  Prim2SF k = S754_finite false pk Ek -> (2 ^ 52 <= Zpos pk)%Z ->
  (t1 <=? t2) = true -> (t1 * k <=? t2 * k) = true.
Proof.
  intros Hk Hn. rewrite !leb_spec, !mul_spec, Hk.
  apply SFmul_monotone; try apply Prim2SF_valid; try assumption.
  pose proof (Prim2SF_valid k) as H. now rewrite Hk in H.
Qed.

Lemma div_monotone (k t1 t2 : float) pk Ek :
  Prim2SF k = S754_finite false pk Ek ->
  (t1 <=? t2) = true -> (t1 / k <=? t2 / k) = true.
Proof.
  intros Hk. rewrite !leb_spec, !div_spec, Hk.
  apply SFdiv_monotone; try apply Prim2SF_valid.
  pose proof (Prim2SF_valid k) as H. now rewrite Hk in H.
Qed.

Lemma div_self_ge_one (x : float) p E :
  Prim2SF x = S754_finite false p E -> (1 <=? x / x) = true.
Proof.
  intros Hx. rewrite leb_spec, div_spec, Hx.
  pose proof (Prim2SF_valid x) as Hv. rewrite Hx in Hv. simpl in Hv.
  pose proof (SFdiv_core_spec p E p E Hv Hv) as H.
  cbn [SF64div SFdiv].
  destruct (SFdiv_core_binary prec emax (Zpos p) E (Zpos p) E) as [[q e'] l].
  destruct H as (Hq & Hin & He).
  destruct (binary_round_aux_spec false q e' l _ Hq Hin He)
    as (M & E' & l' & Sl & Hr).
  change (Prim2SF 1) with (S754_finite false (2 ^ 52) (-52)).
  assert (H1 : rounded false
            (IZR (round_nearest_even (2 ^ 52) loc_Exact) * bpow (-52))
            (S754_finite false (2 ^ 52) (-52))).
  { cbn [rounded round_nearest_even]. repeat split. }
  apply (rounded_le false _ _ _ _ H1 Hr).
  eapply slot_monotone; [|exact Sl|].
  - unfold slot. split; [lia|]. split; [lia|]. split; [left; lia|].
    reflexivity.
  - destruct (bounded_value p E Hv) as ((? & _) & _).
    change (Z.pos (2 ^ 52)) with (2 ^ 52)%Z.
    rewrite <- (bpow_IZR 52), <- bpow_add by lia.
    change (bpow (52 + -52)) with 1%R.
    unfold Rdiv. rewrite Rinv_r by lra. lra.
Qed.


Lemma of_count_spec c :
  (0 <= c)%Z ->
  Prim2SF (number_of_count c)
  = binary_normalize prec emax (Z.min c (2 ^ 53)) 0 false.
Proof.
  intros Hc. unfold number_of_count. rewrite of_uint63_spec, Uint63.of_Z_spec.
  rewrite Z.mod_small; [reflexivity|].
  change Uint63.wB with (2 ^ 63)%Z. lia.
Qed.

Lemma of_count_monotone c1 c2 :
  (0 <= c1 <= c2)%Z -> (number_of_count c1 <=? number_of_count c2) = true.
Proof.
  intros H. rewrite leb_spec, !of_count_spec by lia.
  apply binary_normalize_monotone. lia.
Qed.

Lemma of_count_finite c :
  (1 <= c)%Z -> exists p E, Prim2SF (number_of_count c) = S754_finite false p E.
Proof.
  intros H. rewrite of_count_spec by lia.
  destruct (binary_normalize_finite (Z.min c (2 ^ 53)) ltac:(lia))
    as (p & E & Hp & _).
  now exists p, E.
Qed.

Lemma of_count_integer c :
  (1 <= c <= 2 ^ 53)%Z ->
  exists p E,
    Prim2SF (number_of_count c) = S754_finite false p E /\
    bounded prec emax p E = true /\
    (IZR (Zpos p) * bpow E = IZR c)%R.
Proof.
  intros H. rewrite of_count_spec by lia.
  rewrite Z.min_l by lia. now apply binary_normalize_integer.
Qed.

(** [number_of_count] is the counter: one more increment is one more [+ 1]. *)
Lemma of_count_succ c :
  (0 <= c)%Z -> number_of_count (c + 1) = (number_of_count c + 1)%float.
Proof.
  intros Hc.
  destruct (Z.eq_dec c 0) as [->|H0]; [reflexivity|].
  destruct (Z_lt_ge_dec c (2 ^ 53)) as [Hlt|Hge].
  - apply Prim2SF_inj. rewrite add_spec.
    destruct (of_count_integer c ltac:(lia)) as (p & E & Hp & Hb & Hv).
    rewrite Hp.
    change (Prim2SF 1) with (S754_finite false (2 ^ 52) (-52)).
    destruct (SFadd_positive p E (2 ^ 52) (-52)) as (k & e & Hk & Hk0 & Hkv).
    unfold SF64add. rewrite Hk, of_count_spec, Z.min_l by lia.
    apply binary_normalize_same; [lia|assumption|].
    rewrite Hkv, Hv, plus_IZR.
    change (Z.pos (2 ^ 52)) with (2 ^ 52)%Z.
    rewrite <- (bpow_IZR 52), <- bpow_add by lia.
    change (bpow (52 + -52)) with 1%R. change (bpow 0) with 1%R.
    lra.
  - unfold number_of_count. rewrite !Z.min_r by lia. vm_compute. reflexivity.
Qed.

Lemma of_count_is_zero c :
  (0 <= c)%Z -> JS.strict_eq (number_of_count c) 0 = (c =? 0)%Z.
Proof.
  intros Hc. destruct (Z.eqb_spec c 0) as [->|H0]; [reflexivity|].
  unfold JS.strict_eq. rewrite FloatAxioms.eqb_spec.
  destruct (of_count_finite c ltac:(lia)) as (p & E & ->).
  reflexivity.
Qed.

End Binary64.

(* ================================================================== *)
(** ** detectColor and the threshold *)

Lemma Prim2SF_07 :
  Prim2SF 0.7%float = S754_finite false 6305039478318694 (-53).
Proof. vm_compute. reflexivity. Qed.

Lemma Prim2SF_08 :
  Prim2SF 0.8%float = S754_finite false 7205759403792794 (-53).
Proof. vm_compute. reflexivity. Qed.

Lemma Prim2SF_100 :
  Prim2SF 100%float = S754_finite false 7036874417766400 (-46).
Proof. vm_compute. reflexivity. Qed.

(** A pixel that counts as coloured at a threshold counts as coloured at
    every lower one. *)
Lemma isColorPixel_antitone (t1 t2 r g b : JS.number) :
  PrimFloat.leb t1 t2 = true ->
  isColorPixel t2 r g b = true -> isColorPixel t1 r g b = true.
Proof.
  intros Ht. unfold isColorPixel, JS.gt.
  destruct (JS.lt (luminance r g b) 55%float);
    [|destruct (PrimFloat.ltb 200%float (luminance r g b))];
    intros H; apply orb_true_iff in H; apply orb_true_iff;
    (destruct H as [H|H]; [left|now right]).
  - eapply leb_ltb_trans; [|exact H].
    exact (mul_monotone _ _ _ _ _ Prim2SF_07 ltac:(lia) Ht).
  - eapply leb_ltb_trans; [|exact H].
    exact (mul_monotone _ _ _ _ _ Prim2SF_08 ltac:(lia) Ht).
  - eapply leb_ltb_trans; [exact Ht|exact H].
Qed.

(** The counters are the numbers of their increments. *)
Lemma sample_numbers (threshold : JS.number) (d : list byte) (c : Counts)
      (i : nat) :
  counted c ->
  sample threshold d (numbers c) i = numbers (count_sample threshold d c i) /\
  counted (count_sample threshold d c i).
Proof.
  intros (Hc & Hs & Hb & Hd). unfold sample, count_sample.
  destruct (JS.lt (data_at d (i + 3)) 128%float); [now repeat split|].
  unfold numbers, counted;
    cbn [colorPixels sampledPixels brightPixels darkPixels
         n_color n_sampled n_bright n_dark].
  rewrite <- !of_count_succ by assumption.
  destruct (isColorPixel threshold (data_at d i) (data_at d (i + 1))
              (data_at d (i + 2))),
    (JS.gt (luminance (data_at d i) (data_at d (i + 1)) (data_at d (i + 2)))
           200%float),
    (JS.lt (luminance (data_at d i) (data_at d (i + 1)) (data_at d (i + 2)))
           55%float);
    (split; [reflexivity|repeat split; lia]).
Qed.

Lemma fold_sample_numbers (threshold : JS.number) (d : list byte)
      (indices : list nat) :
  forall c, counted c ->
    fold_left (sample threshold d) indices (numbers c)
    = numbers (fold_left (count_sample threshold d) indices c) /\
    counted (fold_left (count_sample threshold d) indices c).
Proof.
  induction indices as [|i rest IH]; intros c Hc; simpl.
  - now split.
  - destruct (sample_numbers threshold d c i Hc) as [-> Hc'].
    now apply IH.
Qed.

Lemma tally_of_numbers (threshold : JS.number) (d : list byte) :
  tally_of threshold d = numbers (counts_of threshold d) /\
  counted (counts_of threshold d).
Proof.
  unfold tally_of, counts_of.
  apply (fold_sample_numbers threshold d _ counts0).
  unfold counted, counts0; simpl. lia.
Qed.

Lemma detectColor_counts (imageData : ImageData) (threshold : JS.number) :
  detectColor imageData threshold
  = verdict (numbers (counts_of threshold (data imageData))).
Proof.
  unfold detectColor.
  now destruct (tally_of_numbers threshold (data imageData)) as [-> _].
Qed.

Lemma sample_dominates (t1 t2 : JS.number) (d : list byte)
      (c1 c2 : Counts) (i : nat) :
  PrimFloat.leb t1 t2 = true -> dominates c1 c2 ->
  dominates (count_sample t1 d c1 i) (count_sample t2 d c2 i).
Proof.
  intros Ht (Hs & Hb & Hd & Hc & H0). unfold count_sample.
  destruct (JS.lt (data_at d (i + 3)) 128%float); [now repeat split|].
  pose proof (isColorPixel_antitone t1 t2 (data_at d i) (data_at d (i + 1))
                (data_at d (i + 2)) Ht) as Hp.
  unfold dominates; cbn [n_sampled n_bright n_dark n_color].
  rewrite Hs, Hb, Hd.
  destruct (isColorPixel t2 _ _ _).
  - rewrite (Hp eq_refl). repeat split; lia.
  - destruct (isColorPixel t1 _ _ _); repeat split; lia.
Qed.

Lemma fold_sample_dominates (t1 t2 : JS.number) (d : list byte)
      (indices : list nat) :
  PrimFloat.leb t1 t2 = true ->
  forall c1 c2, dominates c1 c2 ->
  dominates (fold_left (count_sample t1 d) indices c1)
            (fold_left (count_sample t2 d) indices c2).
Proof.
  intros Ht. induction indices as [|i rest IH]; intros c1 c2 H; simpl.
  - assumption.
  - apply IH. now apply sample_dominates.
Qed.

Lemma verdict_dominates (c1 c2 : Counts) :
  dominates c1 c2 ->
  verdict (numbers c2) = true -> verdict (numbers c1) = true.
Proof.
  intros (Hs & Hb & Hd & Hc & H0). unfold verdict, numbers.
  cbn [colorPixels sampledPixels brightPixels darkPixels].
  rewrite Hs, Hb, Hd, of_count_is_zero by assumption.
  destruct (Z.eqb_spec (n_sampled c2) 0) as [|Hne]; [discriminate|].
  unfold JS.gt. intros H.
  destruct (of_count_finite (n_sampled c2) ltac:(lia)) as (p & E & Hp).
  eapply ltb_leb_trans; [exact H|].
  apply (mul_monotone _ _ _ _ _ Prim2SF_100 ltac:(lia)).
  apply (div_monotone _ _ _ _ _ Hp).
  apply of_count_monotone. lia.
Qed.

(** C3. Classification is monotone in the threshold: for every buffer and
    thresholds [t1 <= t2], a page that is black-and-white at [t1] is
    black-and-white at [t2]; equivalently a page that is colour at [t2] is
    colour at [t1]. *)
Theorem classify_monotone (buffer : ImageData) (t1 t2 : JS.number) :
  PrimFloat.leb t1 t2 = true ->
  classify buffer t1 = BlackAndWhite ->
  classify buffer t2 = BlackAndWhite.
Proof.
  intros Ht. unfold classify.
  destruct (detectColor buffer t2) eqn:H2; [|reflexivity].
  assert (H1 : detectColor buffer t1 = true).
  { rewrite detectColor_counts in *.
    eapply verdict_dominates; [|exact H2].
    apply fold_sample_dominates; [assumption|].
    unfold dominates, counts0; simpl. repeat split; lia. }
  rewrite H1. discriminate.
Qed.

Lemma classify_monotone_witness :
  classify white_page 50%float = BlackAndWhite /\
  classify white_page 80%float = BlackAndWhite.
Proof.
  assert (H : classify white_page 50%float = BlackAndWhite)
    by (vm_compute; reflexivity).
  split; [exact H|].
  exact (classify_monotone white_page 50%float 80%float eq_refl H).
Defined.

(* ================================================================== *)
(** ** detectColor on saturated pages *)

Lemma saturated_check_true :
  forallb (fun x => forallb (saturated_check x) byte_values) byte_values
  = true.
Proof. vm_compute. reflexivity. Qed.

Lemma byte_values_In (b : byte) : In (Byte.to_N b) byte_values.
Proof.
  unfold byte_values. apply in_map_iff.
  exists (N.to_nat (Byte.to_N b)). split; [apply N2Nat.id|].
  apply in_seq. pose proof (Byte.to_N_bounded b). lia.
Qed.

Lemma to_N_zero (c : byte) : Byte.to_N c = 0%N -> c = x00.
Proof. intros Hc. destruct c; try reflexivity; discriminate Hc. Qed.

Lemma saturated_check_spec (x y : byte) :
  (1 <= N.max (Byte.to_N x) (Byte.to_N y))%N ->
  colored_below_100 (JS.of_byte x00) (JS.of_byte x) (JS.of_byte y) = true /\
  colored_below_100 (JS.of_byte x) (JS.of_byte x00) (JS.of_byte y) = true /\
  colored_below_100 (JS.of_byte x) (JS.of_byte y) (JS.of_byte x00) = true.
Proof.
  intros Hm.
  pose proof saturated_check_true as H.
  rewrite forallb_forall in H. specialize (H _ (byte_values_In x)).
  rewrite forallb_forall in H. specialize (H _ (byte_values_In y)).
  unfold saturated_check in H.
  apply orb_true_iff in H. destruct H as [H|H].
  - apply N.eqb_eq in H. lia.
  - apply andb_true_iff in H. destruct H as [H H3].
    apply andb_true_iff in H. destruct H as [H1 H2].
    repeat split; assumption.
Qed.

Lemma saturated_pixel (r g b : byte) :
  fully_saturated r g b ->
  colored_below_100 (JS.of_byte r) (JS.of_byte g) (JS.of_byte b) = true.
Proof.
  intros [Hmin Hmax].
  destruct (N.eq_dec (Byte.to_N r) 0) as [Hr|Hr].
  { apply to_N_zero in Hr. subst r. apply saturated_check_spec.
    change (Byte.to_N x00) with 0%N in Hmax. lia. }
  destruct (N.eq_dec (Byte.to_N g) 0) as [Hg|Hg].
  { apply to_N_zero in Hg. subst g. apply saturated_check_spec.
    change (Byte.to_N x00) with 0%N in Hmax. lia. }
  destruct (N.eq_dec (Byte.to_N b) 0) as [Hb|Hb].
  { apply to_N_zero in Hb. subst b. apply saturated_check_spec.
    change (Byte.to_N x00) with 0%N in Hmax. lia. }
  lia.
Qed.

Lemma colored_below_100_isColorPixel (t r g b : JS.number) :
  PrimFloat.leb t 100%float = true ->
  colored_below_100 r g b = true -> isColorPixel t r g b = true.
Proof.
  intros Ht. unfold colored_below_100, color_by_chroma, dark_saturated,
    isColorPixel.
  destruct (JS.lt (luminance r g b) 55%float);
    [|destruct (JS.gt (luminance r g b) 200%float)]; cbn [andb];
    rewrite ?orb_false_r; intros H.
  - apply orb_true_iff in H. apply orb_true_iff.
    destruct H as [H|H]; [now right|left].
    unfold JS.gt. eapply ltb_leb_trans; [|exact H].
    eapply leb_ltb_trans;
      [exact (mul_monotone _ _ _ _ _ Prim2SF_07 ltac:(lia) Ht)|].
    vm_compute. reflexivity.
  - rewrite H. apply orb_true_r.
  - rewrite H. apply orb_true_r.
Qed.

(** The loop over a buffer whose sampled pixels are all opaque and all
    coloured. *)
Lemma fold_sample_all_color (t : JS.number) (d : list byte)
      (indices : list nat) :
  (forall i, In i indices ->
     JS.lt (data_at d (i + 3)) 128%float = false /\
     isColorPixel t (data_at d i) (data_at d (i + 1)) (data_at d (i + 2))
     = true) ->
  forall c,
    n_color (fold_left (count_sample t d) indices c)
    = (n_color c + Z.of_nat (length indices))%Z /\
    n_sampled (fold_left (count_sample t d) indices c)
    = (n_sampled c + Z.of_nat (length indices))%Z.
Proof.
  induction indices as [|i rest IH]; intros H c.
  - simpl. lia.
  - destruct (H i (or_introl eq_refl)) as [Ha Hc].
    destruct (IH (fun j Hj => H j (or_intror Hj)) (count_sample t d c i))
      as [IHc IHs].
    cbn [fold_left length]. rewrite IHc, IHs.
    unfold count_sample. rewrite Ha, Hc.
    cbn [n_color n_sampled]. lia.
Qed.

Lemma verdict_all_color (c : Counts) :
  (1 <= n_sampled c)%Z -> n_color c = n_sampled c ->
  verdict (numbers c) = true.
Proof.
  intros Hs Hc. unfold verdict, numbers.
  cbn [colorPixels sampledPixels brightPixels darkPixels].
  rewrite Hc, of_count_is_zero by lia.
  destruct (Z.eqb_spec (n_sampled c) 0) as [|_]; [lia|].
  destruct (of_count_finite (n_sampled c) Hs) as (p & E & Hp).
  unfold JS.gt.
  eapply ltb_leb_trans;
    [|apply (mul_monotone _ _ _ _ _ Prim2SF_100 ltac:(lia)
               (div_self_ge_one _ _ _ Hp))].
  destruct (_ || _); vm_compute; reflexivity.
Qed.

Lemma sample_indices_In (len i : nat) :
  In i (sample_indices len) -> exists k, i = 40 * k /\ i < len.
Proof.
  unfold sample_indices. intros H. apply in_map_iff in H.
  destruct H as (k & <- & Hk). apply in_seq in Hk.
  exists k. split; [reflexivity|].
  pose proof (Nat.Div0.mul_div_le (len + 39) 40). lia.
Qed.

Lemma sample_indices_length (len : nat) :
  0 < len -> 1 <= length (sample_indices len).
Proof.
  intros H. unfold sample_indices. rewrite length_map, length_seq.
  apply (Nat.div_le_lower_bound (len + 39) 40 1); lia.
Qed.

Lemma uniform_data_at (r g b a : byte) (n : nat) : forall j,
  j < n ->
  let d := concat (repeat [r; g; b; a] n) in
  nth_error d (4 * j) = Some r /\ nth_error d (4 * j + 1) = Some g /\
  nth_error d (4 * j + 2) = Some b /\ nth_error d (4 * j + 3) = Some a.
Proof.
  induction n as [|n IH]; intros j Hj; [lia|].
  destruct j as [|j].
  - simpl. auto.
  - destruct (IH j ltac:(lia)) as (H0 & H1 & H2 & H3).
    replace (4 * S j) with (S (S (S (S (4 * j))))) by lia.
    cbn [repeat concat app nth_error Nat.add]. auto.
Qed.

Lemma uniform_length (r g b a : byte) (n : nat) :
  length (concat (repeat [r; g; b; a] n)) = 4 * n.
Proof. induction n as [|n IH]; simpl in *; lia. Qed.

Lemma of_byte_opaque : JS.lt (JS.of_byte xff) 128%float = false.
Proof. vm_compute. reflexivity. Qed.

(** C5. A buffer of one or more pixels, all of one fully saturated opaque
    colour (a zero channel and a non-zero one, alpha 255; pure red for
    one), is classified colour at every threshold of [10, 100]. *)
Theorem saturated_page_is_color (imageData : ImageData) (n : nat)
        (r g b : byte) (threshold : JS.number) :
  1 <= n -> data imageData = concat (repeat [r; g; b; xff] n) ->
  fully_saturated r g b ->
  PrimFloat.leb 10%float threshold = true ->
  PrimFloat.leb threshold 100%float = true ->
  detectColor imageData threshold = true /\
  classify imageData threshold = Color.
Proof.
  intros Hn Hd Hsat _ Ht.
  assert (H : detectColor imageData threshold = true).
  { rewrite detectColor_counts. unfold counts_of.
    rewrite Hd, uniform_length.
    destruct (fold_sample_all_color threshold
                (concat (repeat [r; g; b; xff] n))
                (sample_indices (4 * n))) with (c := counts0) as [Hc Hs].
    - intros i Hi. apply sample_indices_In in Hi.
      destruct Hi as (k & -> & Hk).
      destruct (uniform_data_at r g b xff n (10 * k) ltac:(lia))
        as (H0 & H1 & H2 & H3).
      replace (40 * k) with (4 * (10 * k)) by lia.
      unfold data_at. rewrite H0, H1, H2, H3.
      split; [exact of_byte_opaque|].
      apply colored_below_100_isColorPixel; [assumption|].
      now apply saturated_pixel.
    - pose proof (sample_indices_length (4 * n) ltac:(lia)).
      apply verdict_all_color; rewrite ?Hc, ?Hs;
        unfold counts0; cbn [n_sampled n_color]; lia. }
  split; [assumption|]. unfold classify. now rewrite H.
Qed.

Lemma saturated_page_is_color_witness :
  detectColor red_page 50%float = true /\
  classify red_page 50%float = Color.
Proof.
  apply (saturated_page_is_color red_page 25 xff x00 x00 50%float).
  - lia.
  - reflexivity.
  - split; vm_compute; [reflexivity|discriminate].
  - reflexivity.
  - reflexivity.
Defined.

(* ================================================================== *)
(** ** detectColor, pixel by pixel *)

Lemma how_many_cons f i rest :
  how_many f (i :: rest) = ((if f i then 1 else 0) + how_many f rest)%Z.
Proof.
  unfold how_many. simpl. destruct (f i); simpl length; lia.
Qed.

Lemma how_many_bounds f indices :
  (0 <= how_many f indices <= Z.of_nat (length indices))%Z.
Proof.
  unfold how_many. pose proof (filter_length_le f indices). lia.
Qed.

Lemma how_many_le f g indices :
  (forall i, f i = true -> g i = true) ->
  (how_many f indices <= how_many g indices)%Z.
Proof.
  intros H. induction indices as [|i rest IH]; [reflexivity|].
  rewrite !how_many_cons. specialize (H i).
  destruct (f i); [rewrite H by reflexivity|destruct (g i)]; lia.
Qed.

Lemma how_many_disjoint f g h indices :
  (forall i, (Z.b2z (f i) + Z.b2z (g i) <= Z.b2z (h i))%Z) ->
  (how_many f indices + how_many g indices <= how_many h indices)%Z.
Proof.
  intros H. induction indices as [|i rest IH]; [reflexivity|].
  rewrite !how_many_cons. specialize (H i).
  destruct (f i), (g i), (h i); cbn in H; lia.
Qed.

Lemma fold_count_sample (threshold : JS.number) (d : list byte)
      (indices : list nat) : forall c,
  fold_left (count_sample threshold d) indices c =
  mkCounts (n_color c + how_many (color_sample threshold d) indices)
           (n_sampled c + how_many (opaque d) indices)
           (n_bright c + how_many (bright_sample d) indices)
           (n_dark c + how_many (dark_sample d) indices).
Proof.
  induction indices as [|i rest IH]; intros c.
  - unfold how_many; simpl. destruct c; simpl. f_equal; lia.
  - cbn [fold_left]. rewrite IH, !how_many_cons.
    unfold count_sample, color_sample, bright_sample, dark_sample, opaque,
      pixel_luminance.
    destruct (JS.lt (data_at d (i + 3)) 128%float); cbn [negb andb].
    + f_equal; lia.
    + destruct (isColorPixel threshold (data_at d i) (data_at d (i + 1))
                  (data_at d (i + 2))),
        (JS.gt (luminance (data_at d i) (data_at d (i + 1))
                  (data_at d (i + 2))) 200%float),
        (JS.lt (luminance (data_at d i) (data_at d (i + 1))
                  (data_at d (i + 2))) 55%float);
        cbn [n_color n_sampled n_bright n_dark negb andb]; f_equal; lia.
Qed.

Lemma counts_of_how_many (threshold : JS.number) (d : list byte) :
  counts_of threshold d =
  let indices := sample_indices (length d) in
  mkCounts (how_many (color_sample threshold d) indices)
           (how_many (opaque d) indices)
           (how_many (bright_sample d) indices)
           (how_many (dark_sample d) indices).
Proof.
  unfold counts_of. rewrite fold_count_sample. reflexivity.
Qed.

(** X1. The loop of [detectColor] visits the indices 0, 40, 80, ... below
    the length of the buffer, the length over 40 rounded up of them, and
    leaves in its four counters the numbers of visited pixels that are
    opaque (alpha not below 128), opaque and coloured, opaque and bright
    (luminance above 200), opaque and dark (luminance below 55, not above
    200). So the coloured pixels are at most the opaque ones, and so are
    the bright and the dark ones together. *)
Theorem tally_counts_pixels (threshold : JS.number) (d : list byte) :
  let indices := sample_indices (length d) in
  tally_of threshold d =
  mkTally (number_of_count (how_many (color_sample threshold d) indices))
          (number_of_count (how_many (opaque d) indices))
          (number_of_count (how_many (bright_sample d) indices))
          (number_of_count (how_many (dark_sample d) indices)) /\
  length indices = (length d + 39) / 40 /\
  (how_many (color_sample threshold d) indices
   <= how_many (opaque d) indices)%Z /\
  (how_many (bright_sample d) indices + how_many (dark_sample d) indices
   <= how_many (opaque d) indices <= Z.of_nat (length indices))%Z.
Proof.
  intros indices. split; [|split; [|split]].
  - destruct (tally_of_numbers threshold d) as [-> _].
    rewrite counts_of_how_many. reflexivity.
  - unfold indices, sample_indices. now rewrite length_map, length_seq.
  - apply how_many_le. intros i. unfold color_sample.
    now destruct (opaque d i).
  - split; [|apply how_many_bounds].
    apply how_many_disjoint. intros i. unfold bright_sample, dark_sample.
    destruct (opaque d i), (JS.gt (pixel_luminance d i) 200%float),
      (JS.lt (pixel_luminance d i) 55%float); cbn; lia.
Qed.

(** Zero over a positive number is zero. *)
Lemma zero_div (s : float) p E :
  Prim2SF s = S754_finite false p E -> (0 / s)%float = 0%float.
Proof.
  intros Hs. apply Prim2SF_inj. rewrite div_spec, Hs. reflexivity.
Qed.

(** No coloured pixel counted: the verdict is black-and-white. *)
Lemma verdict_no_color (c : Counts) :
  n_color c = 0%Z -> (0 <= n_sampled c)%Z -> verdict (numbers c) = false.
Proof.
  intros Hc Hs. unfold verdict, numbers.
  cbn [colorPixels sampledPixels brightPixels darkPixels].
  rewrite Hc, of_count_is_zero by assumption.
  destruct (Z.eqb_spec (n_sampled c) 0) as [|Hne]; [reflexivity|].
  destruct (of_count_finite (n_sampled c) ltac:(lia)) as (p & E & Hp).
  change (number_of_count 0) with 0%float.
  rewrite (zero_div _ _ _ Hp).
  destruct (_ || _); vm_compute; reflexivity.
Qed.

Lemma how_many_zero f indices :
  (forall i, In i indices -> f i = false) -> how_many f indices = 0%Z.
Proof.
  intros H. unfold how_many.
  induction indices as [|i rest IH]; [reflexivity|].
  simpl. rewrite (H i (or_introl eq_refl)).
  apply IH. intros j Hj. apply H. now right.
Qed.

Lemma how_many_all f indices :
  (forall i, In i indices -> f i = true) ->
  how_many f indices = Z.of_nat (length indices).
Proof.
  intros H. induction indices as [|i rest IH]; [reflexivity|].
  rewrite how_many_cons, (H i (or_introl eq_refl)), IH;
    [simpl length; lia|].
  intros j Hj. apply H. now right.
Qed.

Lemma how_many_positive f indices :
  (1 <= how_many f indices)%Z -> exists i, In i indices /\ f i = true.
Proof.
  intros H. destruct (existsb f indices) eqn:E.
  - apply existsb_exists in E. exact E.
  - rewrite how_many_zero in H; [lia|].
    intros i Hi. destruct (f i) eqn:Hf; [|reflexivity].
    assert (existsb f indices = true)
      by (apply existsb_exists; now exists i).
    congruence.
Qed.

Lemma detectColor_how_many (imageData : ImageData) (threshold : JS.number) :
  detectColor imageData threshold = true ->
  (1 <= how_many (color_sample threshold (data imageData))
                 (sample_indices (length (data imageData))))%Z.
Proof.
  rewrite detectColor_counts, counts_of_how_many. cbv zeta.
  intros H.
  pose proof (how_many_bounds (color_sample threshold (data imageData))
                (sample_indices (length (data imageData)))) as Hb.
  destruct (Z.eq_dec (how_many (color_sample threshold (data imageData))
                (sample_indices (length (data imageData)))) 0) as [E|E];
    [|lia].
  rewrite verdict_no_color in H; [discriminate|exact E|].
  cbn [n_sampled]. apply how_many_bounds.
Qed.

(** X2. [detectColor] answers colour only when it has seen a coloured
    pixel: some visited index holds an opaque pixel for which
    [isColorPixel] is true at the given threshold. *)
Theorem color_verdict_has_color_pixel (imageData : ImageData)
        (threshold : JS.number) :
  detectColor imageData threshold = true ->
  exists i,
    In i (sample_indices (length (data imageData))) /\
    JS.lt (data_at (data imageData) (i + 3)) 128%float = false /\
    isColorPixel threshold (data_at (data imageData) i)
                 (data_at (data imageData) (i + 1))
                 (data_at (data imageData) (i + 2)) = true.
Proof.
  intros H. apply detectColor_how_many in H.
  apply how_many_positive in H. destruct H as (i & Hi & Hc).
  exists i. split; [assumption|].
  unfold color_sample, opaque in Hc.
  apply andb_true_iff in Hc. destruct Hc as [Ha Hc].
  apply negb_true_iff in Ha. auto.
Qed.

Lemma color_verdict_has_color_pixel_witness :
  exists i,
    In i (sample_indices (length (data red_page))) /\
    JS.lt (data_at (data red_page) (i + 3)) 128%float = false /\
    isColorPixel 50%float (data_at (data red_page) i)
                 (data_at (data red_page) (i + 1))
                 (data_at (data red_page) (i + 2)) = true.
Proof.
  apply (color_verdict_has_color_pixel red_page 50%float).
  vm_compute. reflexivity.
Defined.

Lemma of_byte_alpha (a : byte) :
  JS.lt (JS.of_byte a) 128%float = (Byte.to_N a <? 128)%N.
Proof. destruct a; vm_compute; reflexivity. Qed.

Lemma detectColor_all_color (imageData : ImageData)
      (threshold : JS.number) :
  1 <= length (sample_indices (length (data imageData))) ->
  (forall i, In i (sample_indices (length (data imageData))) ->
             color_sample threshold (data imageData) i = true) ->
  detectColor imageData threshold = true.
Proof.
  intros Hlen H. rewrite detectColor_counts, counts_of_how_many. cbv zeta.
  assert (Ho : forall i, In i (sample_indices (length (data imageData))) ->
                         opaque (data imageData) i = true).
  { intros i Hi. specialize (H i Hi). unfold color_sample in H.
    now destruct (opaque (data imageData) i). }
  apply verdict_all_color; cbn [n_color n_sampled];
    rewrite ?(how_many_all _ _ H), (how_many_all _ _ Ho); lia.
Qed.

Lemma detectColor_no_color (imageData : ImageData)
      (threshold : JS.number) :
  (forall i, In i (sample_indices (length (data imageData))) ->
             color_sample threshold (data imageData) i = false) ->
  detectColor imageData threshold = false.
Proof.
  intros H. rewrite detectColor_counts, counts_of_how_many. cbv zeta.
  apply verdict_no_color; cbn [n_color n_sampled].
  - now apply how_many_zero.
  - apply how_many_bounds.
Qed.

(** X4. On a buffer of one or more pixels that all have the same four
    bytes, the answer of [detectColor] is the answer of [isColorPixel] for
    that pixel when its alpha is 128 or more, and black-and-white when its
    alpha is below 128. *)
Theorem uniform_page_verdict (imageData : ImageData) (n : nat)
        (r g b a : byte) (threshold : JS.number) :
  1 <= n -> data imageData = concat (repeat [r; g; b; a] n) ->
  detectColor imageData threshold =
  (128 <=? Byte.to_N a)%N
  && isColorPixel threshold (JS.of_byte r) (JS.of_byte g) (JS.of_byte b).
Proof.
  intros Hn Hd.
  assert (Hpix : forall i,
    In i (sample_indices (length (data imageData))) ->
    color_sample threshold (data imageData) i =
    (128 <=? Byte.to_N a)%N
    && isColorPixel threshold (JS.of_byte r) (JS.of_byte g) (JS.of_byte b)).
  { intros i Hi. rewrite Hd, uniform_length in Hi.
    apply sample_indices_In in Hi. destruct Hi as (k & -> & Hk).
    destruct (uniform_data_at r g b a n (10 * k) ltac:(lia))
      as (H0 & H1 & H2 & H3).
    replace (40 * k) with (4 * (10 * k)) by lia.
    unfold color_sample, opaque, data_at. rewrite Hd, H0, H1, H2, H3.
    now rewrite of_byte_alpha, N.ltb_antisym, negb_involutive. }
  destruct ((128 <=? Byte.to_N a)%N
            && isColorPixel threshold (JS.of_byte r) (JS.of_byte g)
                            (JS.of_byte b)).
  - apply detectColor_all_color; [|assumption].
    apply sample_indices_length. rewrite Hd, uniform_length. lia.
  - now apply detectColor_no_color.
Qed.

Lemma uniform_page_verdict_witness :
  detectColor white_page 50%float =
  (128 <=? Byte.to_N xff)%N
  && isColorPixel 50%float (JS.of_byte xff) (JS.of_byte xff)
                  (JS.of_byte xff).
Proof.
  apply (uniform_page_verdict white_page 25 xff xff xff xff 50%float).
  - lia.
  - reflexivity.
Defined.

(** A grey pixel is no colour pixel at threshold 0, hence at none above. *)
Lemma gray_pixel_at_zero (v : byte) :
  isColorPixel 0%float (JS.of_byte v) (JS.of_byte v) (JS.of_byte v) = false.
Proof. destruct v; vm_compute; reflexivity. Qed.

Lemma gray_pixel (threshold : JS.number) (v : byte) :
  PrimFloat.leb 0%float threshold = true ->
  isColorPixel threshold (JS.of_byte v) (JS.of_byte v) (JS.of_byte v)
  = false.
Proof.
  intros Ht.
  destruct (isColorPixel threshold _ _ _) eqn:H; [|reflexivity].
  apply (isColorPixel_antitone _ _ _ _ _ Ht) in H.
  now rewrite gray_pixel_at_zero in H.
Qed.

(** X5. A page whose visited pixels are all grey (red, green and blue
    bytes equal) is black-and-white at every threshold that is zero or
    more, whatever the alpha bytes are. *)
Theorem gray_page_is_bw (imageData : ImageData) (threshold : JS.number) :
  PrimFloat.leb 0%float threshold = true ->
  (forall i, In i (sample_indices (length (data imageData))) ->
     exists v, nth_error (data imageData) i = Some v /\
               nth_error (data imageData) (i + 1) = Some v /\
               nth_error (data imageData) (i + 2) = Some v) ->
  detectColor imageData threshold = false /\
  classify imageData threshold = BlackAndWhite.
Proof.
  intros Ht H.
  assert (Hd : detectColor imageData threshold = false).
  { apply detectColor_no_color. intros i Hi.
    destruct (H i Hi) as (v & H0 & H1 & H2).
    unfold color_sample, data_at. rewrite H0, H1, H2.
    rewrite gray_pixel by assumption. apply andb_false_r. }
  unfold classify. now rewrite Hd.
Qed.

Lemma gray_page_is_bw_witness :
  detectColor white_page 50%float = false /\
  classify white_page 50%float = BlackAndWhite.
Proof.
  apply (gray_page_is_bw white_page 50%float).
  - reflexivity.
  - intros i Hi. exists xff. vm_compute in Hi.
    destruct Hi as [<-|[<-|[<-|[]]]]; split; [|split| |split| |split];
      reflexivity.
Defined.

(** One turn of the loop looks at four bytes. *)
Lemma sample_agree (threshold : JS.number) (d1 d2 : list byte) (t : Tally)
      (i : nat) :
  (forall j, j < 4 -> nth_error d1 (i + j) = nth_error d2 (i + j)) ->
  sample threshold d1 t i = sample threshold d2 t i.
Proof.
  intros H. unfold sample, data_at.
  rewrite <- (H 1), <- (H 2), <- (H 3) by lia.
  pose proof (H 0 ltac:(lia)) as H0. rewrite Nat.add_0_r in H0.
  now rewrite <- H0.
Qed.

(** X6. [detectColor] looks at the four bytes of every tenth pixel and at
    nothing else, and of those pixels only at the ones that are not
    transparent: two buffers of the same length whose visited pixels agree
    byte for byte, or are both transparent (alpha below 128), get the same
    counters and the same answer. Width and height play no part. *)
Theorem unsampled_bytes_are_ignored (image1 image2 : ImageData)
        (threshold : JS.number) :
  length (data image1) = length (data image2) ->
  (forall i, In i (sample_indices (length (data image1))) ->
     (forall j, j < 4 -> nth_error (data image1) (i + j)
                         = nth_error (data image2) (i + j))
     \/ (exists a1 a2,
           nth_error (data image1) (i + 3) = Some a1 /\
           nth_error (data image2) (i + 3) = Some a2 /\
           (Byte.to_N a1 < 128)%N /\ (Byte.to_N a2 < 128)%N)) ->
  tally_of threshold (data image1) = tally_of threshold (data image2) /\
  detectColor image1 threshold = detectColor image2 threshold.
Proof.
  intros Hlen H.
  assert (Ht : tally_of threshold (data image1)
               = tally_of threshold (data image2)).
  { unfold tally_of. rewrite <- Hlen.
    revert H. generalize (sample_indices (length (data image1))) tally0.
    intros indices. induction indices as [|i rest IH]; intros t H;
      [reflexivity|].
    cbn [fold_left].
    assert (Hi : sample threshold (data image1) t i
                 = sample threshold (data image2) t i).
    { destruct (H i (or_introl eq_refl))
        as [Hj|(a1 & a2 & H1 & H2 & L1 & L2)].
      - now apply sample_agree.
      - rewrite !sample_skips; try reflexivity;
          unfold data_at; rewrite ?H1, ?H2; now apply of_byte_below_128. }
    rewrite Hi. apply IH. intros j Hj. apply H. now right. }
  split; [assumption|]. unfold detectColor. now rewrite Ht.
Qed.

Lemma unsampled_bytes_are_ignored_witness :
  tally_of 50%float (data white_page) = tally_of 50%float (data speckled_page)
  /\ detectColor white_page 50%float = detectColor speckled_page 50%float.
Proof.
  apply (unsampled_bytes_are_ignored white_page speckled_page 50%float).
  - reflexivity.
  - intros i Hi. left. intros j Hj. vm_compute in Hi.
    destruct Hi as [<-|[<-|[<-|[]]]];
      destruct j as [|[|[|[|j]]]]; try reflexivity; lia.
Defined.

Lemma one_in_small_counts : forallb one_in small_counts = true.
Proof. vm_compute. reflexivity. Qed.

Lemma one_in_spec (s : Z) : (1 <= s <= 9999)%Z -> one_in s = true.
Proof.
  intros H. pose proof one_in_small_counts as Hall.
  rewrite forallb_forall in Hall. apply Hall.
  unfold small_counts. apply in_map_iff. exists (Z.to_nat s).
  split; [lia|]. apply in_seq. lia.
Qed.

Lemma verdict_one_color (c : Counts) :
  (1 <= n_color c)%Z -> (1 <= n_sampled c <= 9999)%Z ->
  verdict (numbers c) = true.
Proof.
  intros Hc Hs. unfold verdict, numbers.
  cbn [colorPixels sampledPixels brightPixels darkPixels].
  rewrite of_count_is_zero by lia.
  destruct (Z.eqb_spec (n_sampled c) 0) as [|_]; [lia|].
  destruct (of_count_finite (n_sampled c) ltac:(lia)) as (p & E & Hp).
  assert (H1 : JS.gt (number_of_count (n_color c)
                      / number_of_count (n_sampled c) * 100)%float
                     0.01%float = true).
  { unfold JS.gt. eapply ltb_leb_trans; [exact (one_in_spec _ Hs)|].
    apply (mul_monotone _ _ _ _ _ Prim2SF_100 ltac:(lia)).
    apply (div_monotone _ _ _ _ _ Hp).
    apply of_count_monotone. lia. }
  destruct (_ || _); [|exact H1].
  unfold JS.gt in *. eapply leb_ltb_trans; [|exact H1].
  vm_compute. reflexivity.
Qed.

Lemma how_many_exists f indices i :
  In i indices -> f i = true -> (1 <= how_many f indices)%Z.
Proof.
  intros Hi Hf. induction indices as [|j rest IH]; [contradiction|].
  rewrite how_many_cons. pose proof (how_many_bounds f rest).
  destruct Hi as [->|Hi].
  - rewrite Hf. lia.
  - specialize (IH Hi). destruct (f j); lia.
Qed.

(** X3. On a buffer of at most 399960 bytes (99990 pixels, at most 9999
    visited ones) one visited pixel that is opaque and coloured makes
    [detectColor] answer colour, whatever the other pixels are and at every
    threshold: one in 9999 is above the final threshold of 0.01 percent. *)
Theorem one_color_pixel_is_enough (imageData : ImageData)
        (threshold : JS.number) (i : nat) :
  (Z.of_nat (length (data imageData)) <= 399960)%Z ->
  In i (sample_indices (length (data imageData))) ->
  JS.lt (data_at (data imageData) (i + 3)) 128%float = false ->
  isColorPixel threshold (data_at (data imageData) i)
               (data_at (data imageData) (i + 1))
               (data_at (data imageData) (i + 2)) = true ->
  detectColor imageData threshold = true /\
  classify imageData threshold = Color.
Proof.
  intros Hlen Hi Ha Hc.
  assert (H : detectColor imageData threshold = true).
  { rewrite detectColor_counts, counts_of_how_many. cbv zeta.
    set (indices := sample_indices (length (data imageData))) in *.
    assert (Hcs : color_sample threshold (data imageData) i = true).
    { unfold color_sample, opaque. now rewrite Ha, Hc. }
    pose proof (how_many_exists _ _ _ Hi Hcs) as H1.
    assert (H2 : (how_many (color_sample threshold (data imageData)) indices
                  <= how_many (opaque (data imageData)) indices)%Z).
    { apply how_many_le. intros j. unfold color_sample.
      now destruct (opaque (data imageData) j). }
    pose proof (how_many_bounds (opaque (data imageData)) indices) as H3.
    assert (H4 : (Z.of_nat (length indices) < 10000)%Z).
    { unfold indices, sample_indices.
      rewrite length_map, length_seq, Nat2Z.inj_div.
      apply Z.div_lt_upper_bound; lia. }
    apply verdict_one_color; cbn [n_color n_sampled]; lia. }
  split; [assumption|]. unfold classify. now rewrite H.
Qed.

Lemma one_color_pixel_is_enough_witness :
  detectColor red_page 50%float = true /\ classify red_page 50%float = Color.
Proof.
  apply (one_color_pixel_is_enough red_page 50%float 0).
  - vm_compute. discriminate.
  - vm_compute. auto.
  - reflexivity.
  - vm_compute. reflexivity.
Defined.

(* ================================================================== *)
(** ** The order and the totals of a run *)

Lemma detectColor_antitone (imageData : ImageData) (t1 t2 : JS.number) :
  PrimFloat.leb t1 t2 = true ->
  detectColor imageData t2 = true -> detectColor imageData t1 = true.
Proof.
  intros Ht H2. rewrite detectColor_counts in *.
  eapply verdict_dominates; [|exact H2].
  apply fold_sample_dominates; [assumption|].
  unfold dominates, counts0; simpl. repeat split; lia.
Qed.

(* --- order --- *)

Lemma StronglySorted_app {A} (R : A -> A -> Prop) (l1 l2 : list A) :
  StronglySorted R l1 -> StronglySorted R l2 ->
  (forall a b, In a l1 -> In b l2 -> R a b) ->
  StronglySorted R (l1 ++ l2).
Proof.
  intros H1 H2 H. induction H1 as [|a l1 Hs IH Hf]; [assumption|].
  simpl. constructor.
  - apply IH. intros x y Hx Hy. apply H; [now right|assumption].
  - apply Forall_app. split; [assumption|].
    apply Forall_forall. intros y Hy. apply H; [now left|assumption].
Qed.

Lemma StronglySorted_map_filter {A B} (R : B -> B -> Prop) (g : A -> B)
      (f : A -> bool) (l : list A) :
  StronglySorted R (map g l) -> StronglySorted R (map g (filter f l)).
Proof.
  induction l as [|a l IH]; intros H; [constructor|].
  simpl in H. apply StronglySorted_inv in H. destruct H as [Hs Hf].
  simpl. destruct (f a); [|now apply IH].
  simpl. constructor; [now apply IH|].
  rewrite Forall_forall in *. intros y Hy. apply Hf.
  apply in_map_iff in Hy. destruct Hy as (x & <- & Hx).
  apply filter_In in Hx. apply in_map. tauto.
Qed.

Lemma jobs_of_pages_keys i n pages : forall p0 j,
  In j (jobs_of_pages i n p0 pages) ->
  job_file j = i /\ p0 <= job_page j.
Proof.
  induction pages as [|pg rest IH]; intros p0 j; simpl; [tauto|].
  intros [<-|H]; [simpl; lia|].
  destruct (IH _ _ H). lia.
Qed.

Lemma jobs_of_pages_sorted i n pages : forall p0,
  StronglySorted key_lt (map job_key (jobs_of_pages i n p0 pages)).
Proof.
  induction pages as [|pg rest IH]; intros p0; simpl; constructor.
  - apply IH.
  - apply Forall_forall. intros k Hk.
    apply in_map_iff in Hk. destruct Hk as (j & <- & Hj).
    apply jobs_of_pages_keys in Hj. destruct Hj as [Hf Hp].
    unfold key_lt, job_key; simpl. right. lia.
Qed.

Lemma jobs_from_keys files : forall i0 j,
  In j (jobs_from i0 files) -> i0 <= job_file j.
Proof.
  induction files as [|file rest IH]; intros i0 j; simpl; [tauto|].
  rewrite in_app_iff. intros [H|H].
  - unfold jobs_of_file in H. destruct (body file); try contradiction.
    apply jobs_of_pages_keys in H. lia.
  - apply IH in H. lia.
Qed.

Lemma jobs_from_sorted files : forall i0,
  StronglySorted key_lt (map job_key (jobs_from i0 files)).
Proof.
  induction files as [|file rest IH]; intros i0; simpl; [constructor|].
  rewrite map_app. apply StronglySorted_app.
  - unfold jobs_of_file. destruct (body file); try constructor.
    apply jobs_of_pages_sorted.
  - apply IH.
  - intros a b Ha Hb.
    apply in_map_iff in Ha. destruct Ha as (ja & <- & Ha).
    apply in_map_iff in Hb. destruct Hb as (jb & <- & Hb).
    apply jobs_from_keys in Hb.
    unfold jobs_of_file in Ha. destruct (body file); try contradiction.
    apply jobs_of_pages_keys in Ha.
    unfold key_lt, job_key; simpl. left. lia.
Qed.

(** X7. In each output document the source pages come in the order of the
    input: by file, and within a file by page, strictly increasing. *)
Theorem outputs_keep_input_order
        (colorThreshold : JS.number) (insertBlankPages : bool)
        (io : OutputEnv) (files : list File) :
  let o := final (splitRun colorThreshold insertBlankPages io files) in
  StronglySorted key_lt (copied (colorPDF o)) /\
  StronglySorted key_lt (copied (bwPDF o)).
Proof.
  intros o; subst o.
  destruct (splitRun_copied colorThreshold insertBlankPages io files)
    as (-> & ->).
  unfold chosen.
  split; apply StronglySorted_map_filter, jobs_from_sorted.
Qed.

(* --- conservation --- *)

Lemma jobs_of_pages_length i n pages : forall p0,
  length (jobs_of_pages i n p0 pages) = length pages.
Proof.
  induction pages as [|pg rest IH]; intros p0; simpl; [reflexivity|].
  now rewrite IH.
Qed.

Lemma jobs_from_length files : forall i0,
  length (jobs_from i0 files) = list_sum (map pagesOf files).
Proof.
  induction files as [|file rest IH]; intros i0; simpl; [reflexivity|].
  rewrite length_app, IH. f_equal.
  unfold jobs_of_file, pagesOf. destruct (body file); try reflexivity.
  apply jobs_of_pages_length.
Qed.

Lemma three_way_split colorThreshold (js : list Job) :
  length (chosen (goes_color colorThreshold) js)
  + length (chosen (goes_bw colorThreshold) js)
  + length (filter dropped js) = length js.
Proof.
  unfold chosen. rewrite !length_map.
  induction js as [|j rest IH]; [reflexivity|].
  cbn [filter]. unfold goes_color, goes_bw, dropped in *.
  destruct (copyable (job_env j)), (isColorPage colorThreshold (job_env j));
    cbn [andb negb length]; lia.
Qed.

(** X8. Every page of every opened file is accounted for: the two
    counters and the number of copy-failure lines on the console add up to
    the number of pages of the files that opened. The pages of a file that
    did not open are not visited, although [getPageCount] may have counted
    them. *)
Theorem every_page_is_accounted_for
        (colorThreshold : JS.number) (insertBlankPages : bool)
        (io : OutputEnv) (files : list File) :
  let o := final (splitRun colorThreshold insertBlankPages io files) in
  colorPages (results o) + bwPages (results o)
  + length (filter is_copy_error (console o))
  = list_sum (map pagesOf files).
Proof.
  intros o; subst o.
  destruct (splitRun_counts colorThreshold insertBlankPages io files)
    as (-> & ->).
  destruct (splitRun_copied colorThreshold insertBlankPages io files)
    as (-> & ->).
  rewrite splitRun_copy_errors, length_map, <- (jobs_from_length files 0).
  apply three_way_split.
Qed.

(* --- threshold and the run --- *)

Lemma isColorPage_antitone (t1 t2 : JS.number) (pg : PageEnv) :
  PrimFloat.leb t1 t2 = true ->
  isColorPage t2 pg = true -> isColorPage t1 pg = true.
Proof.
  intros Ht. unfold isColorPage. destruct (render pg); [|auto].
  now apply detectColor_antitone.
Qed.

Lemma filter_length_mono {A} (f g : A -> bool) (l : list A) :
  (forall x, f x = true -> g x = true) ->
  length (filter f l) <= length (filter g l).
Proof.
  intros H. induction l as [|a l IH]; [reflexivity|].
  simpl. specialize (H a).
  destruct (f a); [rewrite H by reflexivity; simpl; lia|].
  destruct (g a); simpl; lia.
Qed.

(** X9. Over the same files, a higher threshold moves pages from the
    colour document to the black-and-white one and changes nothing else:
    the colour counter does not go up, the black-and-white counter does
    not go down, their sum stays, and every source page of the colour
    document at the higher threshold is in the colour document at the
    lower one. *)
Theorem higher_threshold_fewer_color_pages
        (t1 t2 : JS.number) (insertBlankPages : bool)
        (io : OutputEnv) (files : list File) :
  PrimFloat.leb t1 t2 = true ->
  let r1 := results (final (splitRun t1 insertBlankPages io files)) in
  let r2 := results (final (splitRun t2 insertBlankPages io files)) in
  colorPages r2 <= colorPages r1 /\
  bwPages r1 <= bwPages r2 /\
  colorPages r1 + bwPages r1 = colorPages r2 + bwPages r2 /\
  incl (copied (colorPDF (final (splitRun t2 insertBlankPages io files))))
       (copied (colorPDF (final (splitRun t1 insertBlankPages io files)))).
Proof.
  intros Ht r1 r2; subst r1 r2.
  destruct (splitRun_counts t1 insertBlankPages io files) as (-> & ->).
  destruct (splitRun_counts t2 insertBlankPages io files) as (-> & ->).
  destruct (splitRun_copied t1 insertBlankPages io files) as (-> & ->).
  destruct (splitRun_copied t2 insertBlankPages io files) as (-> & ->).
  pose proof (three_way_split t1 (jobs_from 0 files)) as S1.
  pose proof (three_way_split t2 (jobs_from 0 files)) as S2.
  assert (Hc : length (chosen (goes_color t2) (jobs_from 0 files))
               <= length (chosen (goes_color t1) (jobs_from 0 files))).
  { unfold chosen. rewrite !length_map. apply filter_length_mono.
    intros j. unfold goes_color. destruct (copyable (job_env j)); [|auto].
    cbn [andb]. now apply isColorPage_antitone. }
  repeat split; try lia.
  intros k Hk. unfold chosen in *.
  apply in_map_iff in Hk. destruct Hk as (j & <- & Hj).
  apply filter_In in Hj. destruct Hj as [Hj Hg].
  apply in_map, filter_In. split; [assumption|].
  unfold goes_color in *. destruct (copyable (job_env j)); [|discriminate].
  cbn [andb] in *. now apply (isColorPage_antitone t1 t2).
Qed.

Lemma higher_threshold_fewer_color_pages_witness :
  colorPages (results (final (splitRun 80%float true all_ok [fileA; fileB])))
  <= colorPages
       (results (final (splitRun 50%float true all_ok [fileA; fileB]))).
Proof.
  exact (proj1 (higher_threshold_fewer_color_pages 50%float 80%float true
                  all_ok [fileA; fileB] eq_refl)).
Defined.

(* ================================================================== *)
(** ** The end of a run, case by case *)

Lemma generate_progress io st :
  progress (final (generate io st)) =
  if save_failed io (results st) then error_generating_pdfs
  else if ((colorPages (results st) =? 0) && (bwPages (results st) =? 0))%nat
       then error_no_pages
       else progress_complete.
Proof.
  unfold generate, savePDFs, save_failed.
  destruct st as [c b [[|nc] [|nb]] m e], io as [[] [] [] []]; reflexivity.
Qed.

Lemma generate_downloads io st :
  downloads (generate io st) =
  if save_failed io (results st) then []
  else (if (0 <? colorPages (results st))%nat && colorDownloadOk io
        then [mkDownload "color_pages.pdf"%string (colorPDF st)] else [])
       ++ (if (0 <? bwPages (results st))%nat && bwDownloadOk io
           then [mkDownload "bw_pages.pdf"%string (bwPDF st)] else []).
Proof.
  unfold generate, savePDFs, save_failed.
  destruct st as [c b [[|nc] [|nb]] m e], io as [[] [] [] []]; reflexivity.
Qed.

(** The text a run that returns ends on. *)
Lemma splitRun_progress
        (colorThreshold : JS.number) (insertBlankPages : bool)
        (io : OutputEnv) (files : list File) :
  let o := splitRun colorThreshold insertBlankPages io files in
  let r := results (final o) in
  progress (final o) =
  if save_failed io r then error_generating_pdfs
  else if ((colorPages r =? 0) && (bwPages r =? 0))%nat then error_no_pages
       else progress_complete.
Proof.
  intros o r; subst o r. unfold splitRun.
  destruct (generate_final io
              (processFiles colorThreshold insertBlankPages
                 (length files) 0 files start)) as (_ & _ & -> & _).
  apply generate_progress.
Qed.

(** X14. What a run hands to the browser: nothing when an attempted [save]
    threw (even if the other document was saved); otherwise, for each
    document whose counter is positive and whose download goes through,
    one file holding that document as the loops left it, the colour file
    [color_pages.pdf] before the black-and-white file [bw_pages.pdf]. *)
Theorem downloads_of_a_run
        (colorThreshold : JS.number) (insertBlankPages : bool)
        (io : OutputEnv) (files : list File) :
  let o := splitRun colorThreshold insertBlankPages io files in
  let r := results (final o) in
  downloads o =
  if save_failed io r then []
  else (if (0 <? colorPages r)%nat && colorDownloadOk io
        then [mkDownload "color_pages.pdf"%string (colorPDF (final o))]
        else [])
       ++ (if (0 <? bwPages r)%nat && bwDownloadOk io
           then [mkDownload "bw_pages.pdf"%string (bwPDF (final o))]
           else []).
Proof.
  intros o r; subst o r. unfold splitRun.
  destruct (generate_final io
              (processFiles colorThreshold insertBlankPages
                 (length files) 0 files start)) as (-> & -> & -> & _).
  apply generate_downloads.
Qed.

(* --- console --- *)

Section Console.

Variable colorThreshold : JS.number.
Variable insertBlankPages : bool.

Lemma pages_delta_console i n pages : forall p0,
  d_console (pages_delta colorThreshold i n p0 pages) = [] <->
  forallb clean_page pages = true.
Proof.
  induction pages as [|pg rest IH]; intros p0; simpl; [tauto|].
  rewrite andb_true_iff, <- (IH (S p0)). unfold clean_page.
  destruct (render pg), (copyable pg); simpl;
    intuition (try discriminate; auto).
Qed.

Lemma file_delta_console i file :
  d_console (file_delta colorThreshold insertBlankPages i file) = [] <->
  clean_file file = true.
Proof.
  unfold file_delta, clean_file.
  destruct (body file) as [| |pc|pages]; simpl;
    try (split; discriminate).
  apply pages_delta_console.
Qed.

Lemma files_delta_console files : forall i0,
  d_console (files_delta colorThreshold insertBlankPages i0 files) = [] <->
  forallb clean_file files = true.
Proof.
  induction files as [|file rest IH]; intros i0; simpl; [tauto|].
  rewrite andb_true_iff, <- (IH (S i0)), <- (file_delta_console i0 file).
  split.
  - intros H. now apply app_eq_nil in H.
  - intros [-> ->]. reflexivity.
Qed.

End Console.

(** X15. The console stays empty exactly when nothing failed: every file
    opened, every page was rendered and copied, and no attempted [save] or
    download threw. *)
Theorem console_empty_iff_nothing_failed
        (colorThreshold : JS.number) (insertBlankPages : bool)
        (io : OutputEnv) (files : list File) :
  let o := final (splitRun colorThreshold insertBlankPages io files) in
  console o = [] <->
  forallb clean_file files = true /\ output_errors io (results o) = [].
Proof.
  intros o; subst o.
  destruct (splitRun_final colorThreshold insertBlankPages io files)
    as (_ & _ & _ & ->).
  rewrite <- (files_delta_console colorThreshold insertBlankPages files 0).
  split.
  - intros H. now apply app_eq_nil in H.
  - intros [-> ->]. reflexivity.
Qed.

(* --- separators --- *)

Lemma blanks_app (d1 d2 : PDFDocument) :
  blanks (d1 ++ d2) = blanks d1 + blanks d2.
Proof. unfold blanks. now rewrite filter_app, length_app. Qed.

Lemma length_copied_blanks (doc : PDFDocument) :
  length doc = length (copied doc) + blanks doc.
Proof.
  unfold blanks. induction doc as [|[|i p] rest IH]; simpl; lia.
Qed.

Section Separators.

Variable colorThreshold : JS.number.
Variable insertBlankPages : bool.

Lemma pages_delta_blanks i n pages : forall p0,
  blanks (d_color (pages_delta colorThreshold i n p0 pages)) = 0 /\
  blanks (d_bw (pages_delta colorThreshold i n p0 pages)) = 0.
Proof.
  induction pages as [|pg rest IH]; intros p0; simpl; [auto|].
  rewrite !blanks_app. destruct (IH (S p0)) as [-> ->].
  destruct (copyable pg), (isColorPage colorThreshold pg); auto.
Qed.

Lemma file_delta_blanks i file :
  let n := if opened file && insertBlankPages && (0 <? i) then 1 else 0 in
  blanks (d_color (file_delta colorThreshold insertBlankPages i file)) = n /\
  blanks (d_bw (file_delta colorThreshold insertBlankPages i file)) = n.
Proof.
  unfold file_delta, opened.
  destruct (body file) as [| |pc|pages]; simpl; auto.
  rewrite !blanks_app.
  destruct (pages_delta_blanks i (name file) pages 0) as [-> ->].
  unfold separator. destruct (insertBlankPages && (0 <? i)); auto.
Qed.

Lemma files_delta_blanks files : forall i0,
  1 <= i0 ->
  let n := if insertBlankPages then length (filter opened files) else 0 in
  blanks (d_color (files_delta colorThreshold insertBlankPages i0 files)) = n
  /\
  blanks (d_bw (files_delta colorThreshold insertBlankPages i0 files)) = n.
Proof.
  induction files as [|file rest IH]; intros i0 Hi; simpl.
  - now destruct insertBlankPages.
  - rewrite !blanks_app.
    destruct (IH (S i0) ltac:(lia)) as [-> ->].
    destruct (file_delta_blanks i0 file) as [-> ->].
    destruct (Nat.ltb_spec 0 i0); [|lia].
    destruct (opened file), insertBlankPages; auto.
Qed.

End Separators.

(** X10. Both documents hold the same number of blank pages: with the
    separator option on, one for every file after the first of the
    selection that opened (whether or not the first one opened, whether or
    not any page was copied); with the option off, none. The length of a
    document is its counter plus that number. *)
Theorem separators_count
        (colorThreshold : JS.number) (insertBlankPages : bool)
        (io : OutputEnv) (files : list File) :
  let o := final (splitRun colorThreshold insertBlankPages io files) in
  let n := if insertBlankPages then length (filter opened (tl files))
           else 0 in
  blanks (colorPDF o) = n /\ blanks (bwPDF o) = n /\
  length (colorPDF o) = colorPages (results o) + n /\
  length (bwPDF o) = bwPages (results o) + n.
Proof.
  intros o n.
  assert (H : blanks (colorPDF o) = n /\ blanks (bwPDF o) = n).
  { subst o n.
    destruct (splitRun_final colorThreshold insertBlankPages io files)
      as (-> & -> & _).
    destruct files as [|file rest]; [now destruct insertBlankPages|].
    cbn [files_delta delta_app d_color d_bw tl].
    rewrite !blanks_app.
    destruct (files_delta_blanks colorThreshold insertBlankPages rest 1
                ltac:(lia)) as [-> ->].
    destruct (file_delta_blanks colorThreshold insertBlankPages 0 file)
      as [-> ->].
    rewrite andb_false_r. auto. }
  destruct H as [Hc Hb]. repeat split; try assumption.
  - rewrite (length_copied_blanks (colorPDF o)), Hc. f_equal.
    symmetry. apply splitRun_counts.
  - rewrite (length_copied_blanks (bwPDF o)), Hb. f_equal.
    symmetry. apply splitRun_counts.
Qed.

(* --- composition --- *)

Lemma delta_app_assoc a b c :
  delta_app (delta_app a b) c = delta_app a (delta_app b c).
Proof. unfold delta_app; simpl. now rewrite !app_assoc. Qed.

Lemma delta_app_0_l a : delta_app delta0 a = a.
Proof. now destruct a. Qed.

Lemma files_delta_app colorThreshold insertBlankPages fs1 fs2 : forall i0,
  files_delta colorThreshold insertBlankPages i0 (fs1 ++ fs2) =
  delta_app (files_delta colorThreshold insertBlankPages i0 fs1)
            (files_delta colorThreshold insertBlankPages
                         (i0 + length fs1) fs2).
Proof.
  induction fs1 as [|file rest IH]; intros i0; simpl.
  - now rewrite delta_app_0_l, Nat.add_0_r.
  - rewrite IH, delta_app_assoc. do 3 f_equal. lia.
Qed.

Lemma processFiles_app colorThreshold insertBlankPages total fs1 fs2 :
  forall i st,
  processFiles colorThreshold insertBlankPages total i (fs1 ++ fs2) st =
  processFiles colorThreshold insertBlankPages total (i + length fs1) fs2
    (processFiles colorThreshold insertBlankPages total i fs1 st).
Proof.
  induction fs1 as [|file rest IH]; intros i st; simpl.
  - now rewrite Nat.add_0_r.
  - rewrite IH. f_equal. lia.
Qed.

(** X12. Files added at the end of the selection only append: the
    documents of the longer run start with the documents of the shorter
    one, followed by what the added files contribute from their own
    positions on, and the counters grow by the source pages appended. *)
Theorem appended_files_only_append
        (colorThreshold : JS.number) (insertBlankPages : bool)
        (io : OutputEnv) (files more : list File) :
  let o := final (splitRun colorThreshold insertBlankPages io files) in
  let o' := final (splitRun colorThreshold insertBlankPages io
                            (files ++ more)) in
  let d := files_delta colorThreshold insertBlankPages (length files) more in
  colorPDF o' = colorPDF o ++ d_color d /\
  bwPDF o' = bwPDF o ++ d_bw d /\
  colorPages (results o') =
    colorPages (results o) + length (copied (d_color d)) /\
  bwPages (results o') = bwPages (results o) + length (copied (d_bw d)).
Proof.
  intros o o' d; subst o o' d.
  destruct (splitRun_final colorThreshold insertBlankPages io files)
    as (-> & -> & -> & _).
  destruct (splitRun_final colorThreshold insertBlankPages io
              (files ++ more)) as (-> & -> & -> & _).
  rewrite files_delta_app.
  cbn [delta_app d_color d_bw colorPages bwPages Nat.add].
  now rewrite !copied_app, !length_app.
Qed.

Lemma without_blanks_app (d1 d2 : PDFDocument) :
  without_blanks (d1 ++ d2) = without_blanks d1 ++ without_blanks d2.
Proof. apply filter_app. Qed.

Lemma pages_delta_without_blanks colorThreshold i n pages : forall p0,
  without_blanks (d_color (pages_delta colorThreshold i n p0 pages))
  = d_color (pages_delta colorThreshold i n p0 pages) /\
  without_blanks (d_bw (pages_delta colorThreshold i n p0 pages))
  = d_bw (pages_delta colorThreshold i n p0 pages).
Proof.
  induction pages as [|pg rest IH]; intros p0; simpl; [auto|].
  rewrite !without_blanks_app. destruct (IH (S p0)) as [-> ->].
  destruct (copyable pg), (isColorPage colorThreshold pg); auto.
Qed.

Lemma files_delta_without_blanks colorThreshold insertBlankPages files :
  forall i0,
  without_blanks
    (d_color (files_delta colorThreshold insertBlankPages i0 files))
  = d_color (files_delta colorThreshold false i0 files) /\
  without_blanks
    (d_bw (files_delta colorThreshold insertBlankPages i0 files))
  = d_bw (files_delta colorThreshold false i0 files).
Proof.
  induction files as [|file rest IH]; intros i0; simpl; [auto|].
  rewrite !without_blanks_app. destruct (IH (S i0)) as [-> ->].
  unfold file_delta. destruct (body file) as [| |pc|pages]; auto.
  cbn [delta_app d_color d_bw]. rewrite !without_blanks_app.
  destruct (pages_delta_without_blanks colorThreshold i0 (name file)
              pages 0) as [-> ->].
  unfold separator. destruct (insertBlankPages && (0 <? i0)); auto.
Qed.

(** X11. The separator option inserts blank pages and does nothing else:
    the documents of a run with the blank pages taken out are the
    documents of the same run with the option off. *)
Theorem separators_only_insert_blank_pages
        (colorThreshold : JS.number) (insertBlankPages : bool)
        (io : OutputEnv) (files : list File) :
  let o := final (splitRun colorThreshold insertBlankPages io files) in
  let plain := final (splitRun colorThreshold false io files) in
  without_blanks (colorPDF o) = colorPDF plain /\
  without_blanks (bwPDF o) = bwPDF plain.
Proof.
  intros o plain; subst o plain.
  destruct (splitRun_final colorThreshold insertBlankPages io files)
    as (-> & -> & _).
  destruct (splitRun_final colorThreshold false io files) as (-> & -> & _).
  apply files_delta_without_blanks.
Qed.

(* ================================================================== *)
(** ** The page and the run *)

(** X16. The button and the guard of [processPDFs] agree: when the button
    is enabled some file is selected and [processPDFs] runs over the
    selection; when [processPDFs] returns at its guard the button was
    disabled. *)
Theorem enabled_button_starts_a_run
        (colorThreshold : JS.number) (insertBlankPages : bool)
        (io : OutputEnv) (files : option (list File)) (processing : bool) :
  (buttonDisabled files processing = false ->
   exists fs, files = Some fs /\ fs <> [] /\
     processPDFs colorThreshold insertBlankPages io files =
     Some (splitRun colorThreshold insertBlankPages io fs)) /\
  (processPDFs colorThreshold insertBlankPages io files = None ->
   buttonDisabled files processing = true).
Proof.
  destruct files as [[|file rest]|]; simpl; split; try discriminate; auto.
  intros _. exists (file :: rest). repeat split. discriminate.
Qed.

Lemma enabled_button_starts_a_run_witness :
  exists fs, Some [fileA] = Some fs /\ fs <> [] /\
    processPDFs 50%float false all_ok (Some [fileA]) =
    Some (splitRun 50%float false all_ok fs).
Proof.
  destruct (enabled_button_starts_a_run 50%float false all_ok
              (Some [fileA]) false) as [H _].
  exact (H eq_refl).
Defined.

(* --- progress bar --- *)

Lemma progressWidth_mono (r r' : Results) :
  colorPages r <= colorPages r' -> bwPages r <= bwPages r' ->
  progressWidth r <= progressWidth r'.
Proof. unfold progressWidth. lia. Qed.

(** X17. The progress bar never goes back: its width, ten percent a
    copied page capped at a hundred, does not decrease over a page or over
    any stretch of the file loop, never exceeds 100, and is 100 as soon as
    ten pages have been copied. *)
Theorem progress_bar_never_goes_back
        (colorThreshold : JS.number) (insertBlankPages : bool)
        (total fileIndex : nat) (files : list File) (st : Run) :
  let st' := processFiles colorThreshold insertBlankPages total fileIndex
                          files st in
  progressWidth (results st) <= progressWidth (results st') /\
  progressWidth (results st') <= 100 /\
  (forall filename pageCount pageIndex pg,
      progressWidth (results st) <=
      progressWidth (results (processPage colorThreshold fileIndex filename
                                          pageCount pageIndex pg st))) /\
  (10 <= colorPages (results st') + bwPages (results st') ->
   progressWidth (results st') = 100).
Proof.
  intros st'; subst st'. repeat split.
  - destruct (processFiles_extends colorThreshold insertBlankPages total
                files fileIndex st) as (_ & _ & Hc & Hb & _).
    apply progressWidth_mono; lia.
  - unfold progressWidth. lia.
  - intros filename pageCount pageIndex pg.
    destruct (processPage_extends colorThreshold fileIndex filename
                pageCount pageIndex pg st) as (_ & _ & Hc & Hb & _).
    apply progressWidth_mono; lia.
  - unfold progressWidth. lia.
Qed.

(* --- downloads box --- *)

(** The downloads box after a run that returns. *)
Lemma splitRun_announced
        (colorThreshold : JS.number) (insertBlankPages : bool)
        (io : OutputEnv) (files : list File) :
  let o := splitRun colorThreshold insertBlankPages io files in
  let r := results (final o) in
  (forall dl, In dl (downloads o) ->
     (dl = mkDownload "color_pages.pdf"%string (colorPDF (final o)) /\
      colorNote r = color_pdf_downloaded) \/
     (dl = mkDownload "bw_pages.pdf"%string (bwPDF (final o)) /\
      bwNote r = bw_pdf_downloaded)) /\
  let o' := splitRun colorThreshold insertBlankPages all_ok files in
  let r' := results (final o') in
  (colorNote r' = color_pdf_downloaded <->
   In (mkDownload "color_pages.pdf"%string (colorPDF (final o')))
      (downloads o')) /\
  (bwNote r' = bw_pdf_downloaded <->
   In (mkDownload "bw_pages.pdf"%string (bwPDF (final o')))
      (downloads o')).
Proof.
  intros o r. split.
  - subst o r. unfold splitRun.
    set (st := processFiles _ _ _ _ _ _).
    destruct (generate_final io st) as (-> & -> & -> & _).
    rewrite generate_downloads. unfold colorNote, bwNote, save_failed.
    destruct st as [c b [[|nc] [|nb]] m e], io as [[] [] [] []];
      cbn; intros dl H; intuition (subst; auto).
  - intros o' r'. subst o' r'. unfold splitRun.
    set (st := processFiles _ _ _ _ _ _).
    destruct (generate_final all_ok st) as (-> & -> & -> & _).
    rewrite generate_downloads. unfold colorNote, bwNote, save_failed.
    destruct st as [c b [[|nc] [|nb]] m e]; cbn;
      intuition (try discriminate; auto).
Qed.

(** The results panel after a run that returns. *)
Lemma splitRun_panel
        (colorThreshold : JS.number) (insertBlankPages : bool)
        (io : OutputEnv) (files : list File) :
  let o := splitRun colorThreshold insertBlankPages io files in
  (resultsShown (results (final o)) = true <->
   progress (final o) <> error_no_pages) /\
  (save_failed io (results (final o)) = true ->
   resultsShown (results (final o)) = true /\ downloads o = [] /\
   progress (final o) = error_generating_pdfs).
Proof.
  intros o; subst o. unfold splitRun.
  set (st := processFiles _ _ _ _ _ _).
  destruct (generate_final io st) as (_ & _ & -> & _).
  rewrite generate_progress, generate_downloads.
  unfold resultsShown, save_failed.
  destruct st as [c b [[|nc] [|nb]] m e], io as [[] [] [] []]; cbn;
    intuition (try discriminate; auto).
Qed.

(* ================================================================== *)
(** ** The run, however it is left *)

Section OuterFacts.

Variable colorThreshold : JS.number.
Variable insertBlankPages : bool.

Lemma processFileOuter_cases total i answer st :
  if reached insertBlankPages i answer
  then exists st',
         processFileOuter colorThreshold insertBlankPages total i answer st
         = Thrown st'
  else processFileOuter colorThreshold insertBlankPages total i answer st
       = Next (processFile colorThreshold insertBlankPages total i
                           (fst answer) st).
Proof.
  unfold processFileOuter, reached.
  destruct answer as [file [[| |]|]]; cbn [fst snd];
    destruct (body file); try reflexivity;
    try (eexists; reflexivity);
    destruct (insertBlankPages && (0 <? i)); try reflexivity;
    eexists; reflexivity.
Qed.

Lemma processFilesOuter_cases total answers : forall i st,
  if calm insertBlankPages i answers
  then processFilesOuter colorThreshold insertBlankPages total i answers st
       = Next (processFiles colorThreshold insertBlankPages total i
                            (map fst answers) st)
  else exists st',
         processFilesOuter colorThreshold insertBlankPages total i answers st
         = Thrown st'.
Proof.
  induction answers as [|answer rest IH]; intros i st; [reflexivity|].
  cbn [calm processFilesOuter map processFiles].
  pose proof (processFileOuter_cases total i answer st) as H.
  destruct (reached insertBlankPages i answer); cbn [negb andb].
  - destruct H as (st' & ->). now exists st'.
  - rewrite H. apply IH.
Qed.

(** A call past the guard is left in one of three ways: by the rejection
    of [create()]; at its end, and it is then the run in which nothing
    throws outside the inner [try] blocks; or through the outer [catch],
    with nothing saved or downloaded. *)
Lemma fullRun_cases createOk io answers :
  (createOk = false /\
   fullRun colorThreshold insertBlankPages createOk io answers
   = mkFull Escaped (mkOutcome start None None []) true) \/
  (createOk = true /\ calm insertBlankPages 0 answers = true /\
   fullRun colorThreshold insertBlankPages createOk io answers
   = mkFull Returned
            (splitRun colorThreshold insertBlankPages io (map fst answers))
            false) \/
  (createOk = true /\ calm insertBlankPages 0 answers = false /\
   exists st,
     fullRun colorThreshold insertBlankPages createOk io answers
     = mkFull Caught
              (mkOutcome (set_progress error_unexpected
                            (console_error ErrUnexpected st))
                         None None [])
              false).
Proof.
  unfold fullRun, splitRun. rewrite length_map.
  destruct createOk; [right|now left].
  pose proof (processFilesOuter_cases (length answers) answers 0 start) as H.
  destruct (calm insertBlankPages 0 answers); [left|right].
  - now rewrite H.
  - destruct H as (st & ->). repeat split. now exists st.
Qed.

Lemma fullRun_ending createOk io answers :
  ending (fullRun colorThreshold insertBlankPages createOk io answers) =
  if createOk then
    if calm insertBlankPages 0 answers then Returned else Caught
  else Escaped.
Proof.
  destruct (fullRun_cases createOk io answers)
    as [(-> & ->)|[(-> & -> & ->)|(-> & -> & st & ->)]]; reflexivity.
Qed.

End OuterFacts.

(** C8, as the code has it. A class with no routed page has no output,
    however the call is left: its document is never saved ([save] leaves
    its byte array [null]) and nothing is downloaded under its name. When
    no page was routed to either class nothing is downloaded, and the
    text the call ends on is the no-pages text when it returns at its
    end, the unexpected-error text when the outer [catch] cut it short,
    and still the starting text when [create()] rejected; it is never
    the completion text. The call returns at its end exactly when the
    documents were created and none of [getPageCount] and the separator
    [addPage()] threw. *)
Theorem empty_class_has_no_output
        (colorThreshold : JS.number) (insertBlankPages : bool)
        (createOk : bool) (io : OutputEnv)
        (answers : list (File * option Mishap)) :
  let r := fullRun colorThreshold insertBlankPages createOk io answers in
  let o := outcome r in
  (copied (colorPDF (final o)) = [] ->
   colorPdfBytes o = None /\
   forall dl, In dl (downloads o) ->
              download_name dl <> "color_pages.pdf"%string) /\
  (copied (bwPDF (final o)) = [] ->
   bwPdfBytes o = None /\
   forall dl, In dl (downloads o) ->
              download_name dl <> "bw_pages.pdf"%string) /\
  (copied (colorPDF (final o)) = [] -> copied (bwPDF (final o)) = [] ->
   progress (final o) = match ending r with
                        | Returned => error_no_pages
                        | Caught => error_unexpected
                        | Escaped => progress_starting
                        end /\
   downloads o = []) /\
  ending r = (if createOk then
                if calm insertBlankPages 0 answers then Returned else Caught
              else Escaped).
Proof.
  intros r o; subst r o.
  pose proof (splitRun_empty_class colorThreshold insertBlankPages io
                (map fst answers)) as Hs.
  cbv zeta in Hs. destruct Hs as (Hc & Hb & Hn).
  split; [|split; [|split]]; [| | |apply fullRun_ending].
  all: destruct (fullRun_cases colorThreshold insertBlankPages createOk io
                   answers)
         as [(_ & ->)|[(_ & _ & ->)|(_ & _ & st & ->)]];
    cbn [outcome ending final colorPdfBytes bwPdfBytes downloads];
    try assumption; intros; repeat split; intros dl [].
Qed.

Lemma empty_class_has_no_output_witness :
  let o := outcome (fullRun 50%float true true all_ok
                            [(unreadable "a.pdf"%string, None)]) in
  colorPdfBytes o = None /\ bwPdfBytes o = None /\
  progress (final o) = error_no_pages /\ downloads o = [].
Proof.
  intros o.
  destruct (empty_class_has_no_output 50%float true true all_ok
              [(unreadable "a.pdf"%string, None)]) as (Hc & Hb & Hn & _).
  destruct (Hc eq_refl) as (H1 & _).
  destruct (Hb eq_refl) as (H2 & _).
  destruct (Hn eq_refl eq_refl) as (H3 & H4).
  repeat split; assumption.
Defined.

(** C8, as stated, fails on its second half: a run over one file whose
    page count cannot be read routes no page to either class, and it ends
    on the unexpected-error text, not on the no-pages text. *)
Lemma no_pages_run_can_end_on_unexpected_error :
  let r := fullRun 50%float false true all_ok [damaged "a.pdf"%string] in
  let o := outcome r in
  copied (colorPDF (final o)) = [] /\ copied (bwPDF (final o)) = [] /\
  results (final o) = mkResults 0 0 /\
  colorPdfBytes o = None /\ bwPdfBytes o = None /\ downloads o = [] /\
  ending r = Caught /\
  console (final o) = [ErrUnexpected] /\
  progress (final o) = error_unexpected /\
  progress (final o) <> error_no_pages.
Proof. repeat split. discriminate. Qed.

(** X13. The text a call past the guard ends on: still the starting text
    when [create()] rejected (nothing is caught, and [processing] stays
    set); the unexpected-error text when the outer [catch] cut the file
    loop short; and when the call returns at its end, the generation
    error when a [save] that was attempted threw, the no-pages text when
    nothing was counted, the completion text otherwise. The texts of the
    file and page errors and of a failed download are overwritten: a run
    whose download failed still ends on the completion text. *)
Theorem closing_text_of_a_run
        (colorThreshold : JS.number) (insertBlankPages : bool)
        (createOk : bool) (io : OutputEnv)
        (answers : list (File * option Mishap)) :
  let r := fullRun colorThreshold insertBlankPages createOk io answers in
  let res := results (final (outcome r)) in
  progress (final (outcome r)) =
    match ending r with
    | Escaped => progress_starting
    | Caught => error_unexpected
    | Returned =>
        if save_failed io res then error_generating_pdfs
        else if ((colorPages res =? 0) && (bwPages res =? 0))%nat
             then error_no_pages
             else progress_complete
    end /\
  ending r = (if createOk then
                if calm insertBlankPages 0 answers then Returned else Caught
              else Escaped) /\
  processing r = match ending r with Escaped => true | _ => false end.
Proof.
  intros r res; subst r res.
  split; [|split; [apply fullRun_ending|]].
  all: destruct (fullRun_cases colorThreshold insertBlankPages createOk io
                   answers)
         as [(_ & ->)|[(_ & _ & ->)|(_ & _ & st & ->)]];
    cbn [outcome ending final processing]; try reflexivity.
  apply (splitRun_progress colorThreshold insertBlankPages io
           (map fst answers)).
Qed.

(** X18. Every file handed to the browser is announced in the downloads
    box: a download is the colour file or the black-and-white file, with
    the document as the loops left it, and the box then says so. A call
    that does not return at its end downloads nothing, whatever the box
    says. When no [save] and no download throws, the box announces a
    file of a call that returned at its end exactly when the file was
    downloaded. *)
Theorem downloads_are_announced
        (colorThreshold : JS.number) (insertBlankPages : bool)
        (createOk : bool) (io : OutputEnv)
        (answers : list (File * option Mishap)) :
  let r := fullRun colorThreshold insertBlankPages createOk io answers in
  let o := outcome r in
  let res := results (final o) in
  (forall dl, In dl (downloads o) ->
     (dl = mkDownload "color_pages.pdf"%string (colorPDF (final o)) /\
      colorNote res = color_pdf_downloaded) \/
     (dl = mkDownload "bw_pages.pdf"%string (bwPDF (final o)) /\
      bwNote res = bw_pdf_downloaded)) /\
  (ending r <> Returned -> downloads o = []) /\
  let r' := fullRun colorThreshold insertBlankPages createOk all_ok
                    answers in
  let o' := outcome r' in
  let res' := results (final o') in
  (colorNote res' = color_pdf_downloaded /\ ending r' = Returned <->
   In (mkDownload "color_pages.pdf"%string (colorPDF (final o')))
      (downloads o')) /\
  (bwNote res' = bw_pdf_downloaded /\ ending r' = Returned <->
   In (mkDownload "bw_pages.pdf"%string (bwPDF (final o')))
      (downloads o')).
Proof.
  intros r o res. split; [|split].
  - subst r o res.
    destruct (fullRun_cases colorThreshold insertBlankPages createOk io
                answers)
      as [(_ & ->)|[(_ & _ & ->)|(_ & _ & st & ->)]];
      cbn [outcome downloads]; try (intros dl []).
    apply (splitRun_announced colorThreshold insertBlankPages io
             (map fst answers)).
  - subst r o res.
    destruct (fullRun_cases colorThreshold insertBlankPages createOk io
                answers)
      as [(_ & ->)|[(_ & _ & ->)|(_ & _ & st & ->)]];
      cbn [outcome ending downloads]; auto.
    intros H. now destruct H.
  - intros r' o' res'; subst r' o' res'.
    destruct (fullRun_cases colorThreshold insertBlankPages createOk all_ok
                answers)
      as [(_ & ->)|[(_ & _ & ->)|(_ & _ & st & ->)]];
      cbn [outcome ending downloads final].
    + split; split; try (intros [_ H]; discriminate H); intros [].
    + destruct (splitRun_announced colorThreshold insertBlankPages all_ok
                  (map fst answers)) as (_ & Hc & Hb).
      cbv zeta in Hc, Hb. rewrite <- Hc, <- Hb. tauto.
    + split; split; try (intros [_ H]; discriminate H); intros [].
Qed.

(** X19. The results panel and the text a call ends on. After a call that
    returned at its end the panel is rendered exactly when the text is
    not the no-pages text; after a [save] that threw it is rendered, with
    the counts, although nothing was downloaded and the text is the
    generation error. After a call cut short by the outer [catch] the
    text is the unexpected-error text and nothing was downloaded, and the
    panel is rendered or not according to what was counted before the
    cut: hidden when the first file cannot be counted, rendered when a
    page was copied before. After a rejected [create()] the panel is
    hidden and the text is still the starting text. *)
Theorem results_panel_matches_closing_text
        (colorThreshold : JS.number) (insertBlankPages : bool)
        (createOk : bool) (io : OutputEnv)
        (answers : list (File * option Mishap)) :
  let r := fullRun colorThreshold insertBlankPages createOk io answers in
  let o := outcome r in
  match ending r with
  | Returned =>
      (resultsShown (results (final o)) = true <->
       progress (final o) <> error_no_pages) /\
      (save_failed io (results (final o)) = true ->
       resultsShown (results (final o)) = true /\ downloads o = [] /\
       progress (final o) = error_generating_pdfs)
  | Caught =>
      progress (final o) = error_unexpected /\ downloads o = []
  | Escaped =>
      resultsShown (results (final o)) = false /\
      progress (final o) = progress_starting /\ downloads o = []
  end /\
  (let cut := outcome (fullRun 50%float false true all_ok
                               [damaged "a.pdf"%string]) in
   resultsShown (results (final cut)) = false /\
   progress (final cut) = error_unexpected) /\
  (let cut := outcome (fullRun 50%float false true all_ok
                               [(fileB, None); damaged "a.pdf"%string]) in
   resultsShown (results (final cut)) = true /\
   progress (final cut) = error_unexpected /\ downloads cut = []).
Proof.
  intros r o; subst r o. split; [|split; [|vm_compute]]; auto.
  destruct (fullRun_cases colorThreshold insertBlankPages createOk io
              answers)
    as [(_ & ->)|[(_ & _ & ->)|(_ & _ & st & ->)]];
    cbn [outcome ending final downloads]; auto.
  apply (splitRun_panel colorThreshold insertBlankPages io
           (map fst answers)).
Qed.
